(** * WebDNN graph transpiler: Pooling2D, the WebGL channel-mode pass and the
      WebAssembly rule group

    The development embeds three source files of the graph transpiler:

    - [webdnn/graph/operators/pooling_2d.py]                       (module [Pooling2D])
    - [webdnn/backend/webgl/optimize_rules/insert_channel_mode_conversion.py]
                                                  (module [InsertChannelModeConversion])
    - [webdnn/backend/webassembly/optimize_rules/webassembly_optimize_rule.py]
                                                      (module [WebassemblyOptimizeRule])

    The graph is a store of nodes: Python object references become indices
    into two arenas (variables and operators), so that two slots holding the
    same Python object hold the same index.  Python integers are unbounded and
    are modelled by [Z]; [//] and [%] are floor division and its remainder,
    which is what [Z.div] and [Z.modulo] compute for a non-zero divisor; a zero
    divisor raises [ZeroDivisionError]. *)

From Stdlib Require Import ZArith Lia.
From stdpp Require Import base numbers option list strings gmap.

Local Open Scope string_scope.
Local Open Scope list_scope.

(** ** Exceptions and the store monad *)

Inductive Exception :=
  | AssertionError
  | KeyError
  | ZeroDivisionError
  | DanglingReference.
(* [DanglingReference] has no Python counterpart: it is the reading of an index
   that is outside its arena, which a Python reference can never be. *)

Inductive Result (A : Type) :=
  | Ok (a : A)
  | Raise (e : Exception).
Arguments Ok {A} a.
Arguments Raise {A} e.

Module Axis.

Inductive t := N | C | H | W | T.

#[global] Instance eq_dec : EqDecision t.
Proof. solve_decision. Defined.

End Axis.

(** An Order is the sequence of its axes ([order.axes]). *)
Abbreviation Order := (list Axis.t).
Definition OrderNHWC : Order := [Axis.N; Axis.H; Axis.W; Axis.C].

Inductive ChannelModeEnum := R | RGBA.

#[global] Instance ChannelModeEnum_eq_dec : EqDecision ChannelModeEnum.
Proof. solve_decision. Defined.

(** References to nodes are indices into the arenas of the store. *)
Abbreviation VarId := nat.
Abbreviation OpId := nat.

(** Modelled from the spec: the Variable class ([webdnn/graph/variable.py]) is
    not among the sources.  A Variable carries its shape (one extent per axis
    of its Order), its Order and an open attribute set; the two attribute kinds
    the WebGL pass reads and writes, ChannelMode and TextureShape (height,
    width), are kept as one optional entry each. *)
Record variable := mkVariable {
  shape : list Z;
  order : Order;
  channel_mode : option ChannelModeEnum;
  texture_shape : option (Z * Z)
}.

(** The operator classes the rules distinguish by [isinstance]; every other
    class is [OtherOperator] with its class name. *)
Inductive OperatorClass :=
  | Sgemm
  | Tensordot
  | ConvertRGBAtoR
  | ConvertRtoRGBA
  | Pooling2DClass
  | OtherOperator (cls : string).

Inductive OperatorAttribute :=
  | Tensorwise (axis : Axis.t).

(** Modelled from the spec: the Operator class ([webdnn/graph/operator.py]) is
    not among the sources.  An Operator has a name, a parameter dictionary,
    named input and output slots bound to Variables, and an attribute set.
    The slot dictionaries are insertion-ordered (their keys are iterated by
    the WebGL pass), hence association lists with distinct keys. *)
Record operator := mkOperator {
  op_class : OperatorClass;
  op_name : option string;
  parameters : gmap string (Z * Z);
  inputs : list (string * VarId);
  outputs : list (string * VarId);
  attributes : list OperatorAttribute
}.

(** The store: both arenas and the lines written by [console.warning]. *)
Record Heap := mkHeap {
  variables : list variable;
  operators : list operator;
  console : list string
}.

Definition M (A : Type) : Type := Heap -> Result (A * Heap).

Definition ret {A} (a : A) : M A := fun h => Ok (a, h).
Definition raise {A} (e : Exception) : M A := fun _ => Raise e.
Definition bind {A B} (m : M A) (k : A -> M B) : M B :=
  fun h => match m h with
           | Ok (a, h') => k a h'
           | Raise e => Raise e
           end.

Notation "'let*' x ':=' m 'in' k" := (bind m (fun x => k))
  (at level 10, x name, m at level 100, k at level 200).
Notation "m ';;' k" := (bind m (fun _ => k))
  (at level 100, k at level 200, right associativity).

(** [for x in xs: body(x)] *)
Fixpoint for_each {A} (xs : list A) (body : A -> M unit) : M unit :=
  match xs with
  | [] => ret tt
  | x :: xs' => body x ;; for_each xs' body
  end.

(** ** Python dictionaries *)

(** [dict(zip(ks, vs))[k]]: a later pair overrides an earlier one. *)
Fixpoint dict_zip {K V} `{EqDecision K} (ks : list K) (vs : list V) (k : K)
  : option V :=
  match ks, vs with
  | k' :: ks', v :: vs' =>
      match dict_zip ks' vs' k with
      | Some v' => Some v'
      | None => if decide (k = k') then Some v else None
      end
  | _, _ => None
  end.

(** [d[k]] on a slot dictionary. *)
Fixpoint slot_get (d : list (string * VarId)) (k : string) : option VarId :=
  match d with
  | [] => None
  | (k', v) :: d' => if decide (k = k') then Some v else slot_get d' k
  end.

(** [d[k] = v] on a slot dictionary: a present key keeps its position. *)
Fixpoint slot_set (d : list (string * VarId)) (k : string) (v : VarId)
  : list (string * VarId) :=
  match d with
  | [] => [(k, v)]
  | (k', v') :: d' =>
      if decide (k = k') then (k', v) :: d' else (k', v') :: slot_set d' k v
  end.

Definition getitem {A} (o : option A) : M A :=
  match o with
  | Some a => ret a
  | None => raise KeyError
  end.

(** ** Store access *)

Definition read_var (v : VarId) : M variable :=
  fun h => match variables h !! v with
           | Some x => Ok (x, h)
           | None => Raise DanglingReference
           end.

Definition read_op (o : OpId) : M operator :=
  fun h => match operators h !! o with
           | Some x => Ok (x, h)
           | None => Raise DanglingReference
           end.

Definition write_var (v : VarId) (x : variable) : M unit :=
  fun h => if decide (v < length (variables h))
           then Ok (tt, mkHeap (<[v := x]> (variables h)) (operators h) (console h))
           else Raise DanglingReference.

Definition write_op (o : OpId) (x : operator) : M unit :=
  fun h => if decide (o < length (operators h))
           then Ok (tt, mkHeap (variables h) (<[o := x]> (operators h)) (console h))
           else Raise DanglingReference.

Definition alloc_var (x : variable) : M VarId :=
  fun h => Ok (length (variables h),
               mkHeap (variables h ++ [x]) (operators h) (console h)).

Definition alloc_op (x : operator) : M OpId :=
  fun h => Ok (length (operators h),
               mkHeap (variables h) (operators h ++ [x]) (console h)).

(** [console.warning(msg)] *)
Definition console_warning (msg : string) : M unit :=
  fun h => Ok (tt, mkHeap (variables h) (operators h) (console h ++ [msg])).

(** ** Variable and Operator methods used by the embedded sources *)

(** Modelled from the spec: the constructor [Variable(shape, order)] is not
    among the sources.  It makes a new node with the given extents and Order
    and without attributes. *)
Definition Variable_new (sh : list Z) (ord : Order) : M VarId :=
  alloc_var (mkVariable sh ord None None).

(** Modelled from the spec: [Variable.shape_dict] is not among the sources.
    It is the mapping from the axes of the Order to the extents,
    [dict(zip(v.order.axes, v.shape))].  Reading an axis the mapping does not
    hold is modelled as a KeyError; which exception the library raises there
    is not visible in the sources. *)
Definition shape_dict (x : variable) (a : Axis.t) : option Z :=
  dict_zip (order x) (shape x) a.

(** Modelled from the spec: [Variable.change_order] is not among the sources.
    It keeps the axis-to-extent mapping and re-sequences it along the new
    Order: an axis the new Order adds gets extent 1, and an axis the new Order
    drops must have extent 1. *)
Definition change_order (v : VarId) (ord : Order) : M VarId :=
  let* x := read_var v in
  let old_shape_dict := shape_dict x in
  if forallb (fun a => bool_decide (a ∈ ord)
                       || bool_decide (old_shape_dict a = Some 1%Z)) (order x)
  then
    write_var v (mkVariable
                   ((fun a => default 1%Z (old_shape_dict a)) <$> ord) ord
                   (channel_mode x) (texture_shape x)) ;;
    ret v
  else raise AssertionError.

(** [op.inputs[name]] and [op.outputs[name]]: reads of the two slot
    dictionaries of an operator. *)
Definition input_of (o : OpId) (name : string) : M VarId :=
  let* op := read_op o in getitem (slot_get (inputs op) name).

Definition output_of (o : OpId) (name : string) : M VarId :=
  let* op := read_op o in getitem (slot_get (outputs op) name).

(** Modelled from the spec: [Operator.append_input] and
    [Operator.append_output] are not among the sources.  They bind the named
    slot to the variable.  The model binds the name also when it is bound
    already, replacing the binding; whether the library refuses that is not
    visible in the sources. *)
Definition append_input (o : OpId) (name : string) (v : VarId) : M unit :=
  let* op := read_op o in
  write_op o (mkOperator (op_class op) (op_name op) (parameters op)
                (slot_set (inputs op) name v) (outputs op) (attributes op)).

Definition append_output (o : OpId) (name : string) (v : VarId) : M unit :=
  let* op := read_op o in
  write_op o (mkOperator (op_class op) (op_name op) (parameters op)
                (inputs op) (slot_set (outputs op) name v) (attributes op)).

(** Modelled from the spec: [op.attributes.add(attr)] appends to the
    attributes of the operator. *)
Definition attributes_add (o : OpId) (attr : OperatorAttribute) : M unit :=
  let* op := read_op o in
  write_op o (mkOperator (op_class op) (op_name op) (parameters op)
                (inputs op) (outputs op) (attributes op ++ [attr])).

(** [op.parameters[key] = value] *)
Definition parameters_set (o : OpId) (key : string) (value : Z * Z) : M unit :=
  let* op := read_op o in
  write_op o (mkOperator (op_class op) (op_name op) (<[key := value]> (parameters op))
                (inputs op) (outputs op) (attributes op)).

Definition parameter (o : OpId) (key : string) : M (Z * Z) :=
  let* op := read_op o in getitem (parameters op !! key).

(** Python's [a // b] and [a % b]. *)
Definition floordiv (a b : Z) : M Z :=
  if decide (b = 0%Z) then raise ZeroDivisionError else ret (a `div` b)%Z.

Definition pymod (a b : Z) : M Z :=
  if decide (b = 0%Z) then raise ZeroDivisionError else ret (a `mod` b)%Z.

Definition assert (b : bool) : M unit :=
  if b then ret tt else raise AssertionError.

(** ** [webdnn/graph/operators/pooling_2d.py] *)

Module Pooling2D.

(** [operators/util.py] is not among the sources.  [IntOrTuple] is "int or tuple
    of int" (the class docstring), and [to_tuple] turns an int [k] into the
    pair [(k, k)] and leaves a pair as it is. *)
Inductive IntOrTuple :=
  | Int (k : Z)
  | Tuple (k0 k1 : Z).

Definition to_tuple (x : IntOrTuple) : Z * Z :=
  match x with
  | Int k => (k, k)
  | Tuple k0 k1 => (k0, k1)
  end.

Definition edge_warning : string :=
  "[Pooling2D] Performing pooling with parameters which causes edge is ignored. "
  +:+ "Which edge (left / right) is ignored is different on frameworks,"
  +:+ " so slightly different result will be generated.".

(** [Pooling2D.__init__(self, name, ksize, stride, padding)] *)
Definition __init__ (name : option string) (ksize stride padding : IntOrTuple)
  : M OpId :=
  let* self := alloc_op (mkOperator Pooling2DClass name ∅ [] [] []) in
  parameters_set self "ksize" (to_tuple ksize) ;;
  parameters_set self "stride" (to_tuple stride) ;;
  parameters_set self "padding" (to_tuple padding) ;;
  let* k := parameter self "ksize" in
  let* s := parameter self "stride" in
  assert (bool_decide (k.1 >= s.1)%Z) ;;
  let* k := parameter self "ksize" in
  let* s := parameter self "stride" in
  assert (bool_decide (k.2 >= s.2)%Z) ;;
  ret self.

(** [Pooling2D.exec(self)] *)
Definition exec (self : OpId) : M VarId :=
  let* x := input_of self "x" in
  let* xv := read_var x in
  let x_shape_dict := shape_dict xv in
  let* N := getitem (x_shape_dict Axis.N) in
  let* xH := getitem (x_shape_dict Axis.H) in
  let* p := parameter self "padding" in
  let* s := parameter self "stride" in
  let* k := parameter self "ksize" in
  let* s' := parameter self "stride" in
  let* qH := floordiv (xH + 2 * p.1 + s.1 - k.1 - 1)%Z s'.1 in
  let H2 := (qH + 1)%Z in
  let* xW := getitem (x_shape_dict Axis.W) in
  let* p := parameter self "padding" in
  let* s := parameter self "stride" in
  let* k := parameter self "ksize" in
  let* s' := parameter self "stride" in
  let* qW := floordiv (xW + 2 * p.2 + s.2 - k.2 - 1)%Z s'.2 in
  let W2 := (qW + 1)%Z in
  let* C2 := getitem (x_shape_dict Axis.C) in
  let* xH := getitem (x_shape_dict Axis.H) in
  let* p := parameter self "padding" in
  let* k := parameter self "ksize" in
  let* s := parameter self "stride" in
  let* rH := pymod (xH + 2 * p.1 - k.1)%Z s.1 in
  let* truncated :=
    if negb (bool_decide (rH = 0%Z)) then ret true
    else
      let* xW := getitem (x_shape_dict Axis.W) in
      let* p := parameter self "padding" in
      let* k := parameter self "ksize" in
      let* s := parameter self "stride" in
      let* rW := pymod (xW + 2 * p.2 - k.2)%Z s.2 in
      ret (negb (bool_decide (rW = 0%Z))) in
  (if truncated : bool then console_warning edge_warning else ret tt) ;;
  let* y := Variable_new [N; H2; W2; C2] OrderNHWC in
  let* xv := read_var x in
  let* y := change_order y (order xv) in
  append_output self "y" y ;;
  let* xv := read_var x in
  for_each (order xv) (fun axis =>
    if bool_decide (axis = Axis.H) || bool_decide (axis = Axis.W) then ret tt
    else attributes_add self (Tensorwise axis)) ;;
  ret y.

(** [Pooling2D.__call__(self, x)] *)
Definition __call__ (self : OpId) (x : VarId) : M VarId :=
  append_input self "x" x ;;
  exec self.

End Pooling2D.

(** ** [webdnn/backend/webgl/optimize_rules/insert_channel_mode_conversion.py] *)

(** A Graph is given by its declared input and output Variables; its nodes
    live in the store. *)
Record Graph := mkGraph {
  graph_inputs : list VarId;
  graph_outputs : list VarId
}.

(** What the pass takes from modules that are not among the sources and whose
    values the spec leaves open: the mode and the texture shape (height,
    width) that [ChannelMode.get] and [TextureShape.get] report for a Variable
    without the attribute, and [traverse.listup_operators], the listing of
    the operators of a graph. *)
Class Externals := {
  default_channel_mode : ChannelModeEnum;
  default_texture_shape : variable -> Z * Z;
  listup_operators : Graph -> Heap -> list OpId
}.

(** Modelled from the spec: the attribute classes of the WebGL backend are not
    among the sources.  An attribute is a typed fact attached to a Variable,
    read and written through [get] and [set].  On a Variable without the
    attribute [get] reports the default and is modelled as a read; whether
    the library then attaches the default to the Variable is not visible in
    the sources. *)
Module ChannelMode.

Definition get `{Externals} (v : VarId) : M ChannelModeEnum :=
  let* x := read_var v in
  ret (default default_channel_mode (channel_mode x)).

Definition set (v : VarId) (mode : ChannelModeEnum) : M unit :=
  let* x := read_var v in
  write_var v (mkVariable (shape x) (order x) (Some mode) (texture_shape x)).

End ChannelMode.

Module TextureShape.

Definition get `{Externals} (v : VarId) : M (Z * Z) :=
  let* x := read_var v in
  ret (default (default_texture_shape x) (texture_shape x)).

Definition set (v : VarId) (height width : Z) : M unit :=
  let* x := read_var v in
  write_var v (mkVariable (shape x) (order x) (channel_mode x) (Some (height, width))).

End TextureShape.

(** Modelled from the spec: the two conversion operators are not among the
    sources.  An explicit conversion operator passes one mode through and
    emits the other: it reads its input in slot "x0" and writes to slot "y" a
    new Variable with the shape and Order of the input and the emitted mode. *)
Definition convert (cls : OperatorClass) (emitted : ChannelModeEnum) (x0 : VarId)
  : M VarId :=
  let* op := alloc_op (mkOperator cls None ∅ [] [] []) in
  let* x := read_var x0 in
  let* y := Variable_new (shape x) (order x) in
  append_input op "x0" x0 ;;
  append_output op "y" y ;;
  ChannelMode.set y emitted ;;
  ret y.

Definition convert_r_to_rgba (x0 : VarId) : M VarId := convert ConvertRtoRGBA RGBA x0.
Definition convert_rgba_to_r (x0 : VarId) : M VarId := convert ConvertRGBAtoR R x0.

(** Rebinding of slots: every slot bound to [v_old] is bound to [v_new], and
    slot names and their sequence stay. *)
Definition rebind (v_old v_new : VarId) (d : list (string * VarId))
  : list (string * VarId) :=
  (fun kv => (kv.1, if decide (kv.2 = v_old) then v_new else kv.2)) <$> d.

(** Modelled from the spec: [Operator.replace_input] and
    [Operator.replace_output] are not among the sources.  A rewrite replaces
    references, swapping the old node for the new node in the referencing
    slots, and it preserves slot-name identity.  The model rebinds every slot
    of the side that holds the old node; what the library does with a second
    slot that holds it is not visible in the sources. *)
Definition replace_input (o : OpId) (v_old v_new : VarId) : M unit :=
  let* op := read_op o in
  write_op o (mkOperator (op_class op) (op_name op) (parameters op)
                (rebind v_old v_new (inputs op)) (outputs op) (attributes op)).

Definition replace_output (o : OpId) (v_old v_new : VarId) : M unit :=
  let* op := read_op o in
  write_op o (mkOperator (op_class op) (op_name op) (parameters op)
                (inputs op) (rebind v_old v_new (outputs op)) (attributes op)).

(** Modelled from the spec: [Variable.replace] is not among the sources.
    [v.replace(v_new)] puts [v_new] in the place of [v] in the graph: the
    operator that writes [v] now writes [v_new], and the replacement updates
    the input references of all consumer operators. *)
Definition Variable_replace (v v_new : VarId) : M unit :=
  fun h =>
    Ok (tt, mkHeap (variables h)
              ((fun op => mkOperator (op_class op) (op_name op) (parameters op)
                            (rebind v v_new (inputs op))
                            (rebind v v_new (outputs op)) (attributes op))
                 <$> operators h)
              (console h)).

(** [any(f(x) for x in xs)]: the generator is consumed up to the first true
    element and no further. *)
Fixpoint any_of {A} (xs : list A) (f : A -> M bool) : M bool :=
  match xs with
  | [] => ret false
  | x :: xs' => let* b := f x in if b : bool then ret true else any_of xs' f
  end.

Module InsertChannelModeConversion.

Section rule.

Context `{Externals}.

(** [_replace_input(op, var_name, target)] *)
Definition _replace_input (op : OpId) (var_name : string) (target : ChannelModeEnum)
  : M bool :=
  let* v := input_of op var_name in
  let* mode := ChannelMode.get v in
  if bool_decide (mode = target) then ret false
  else
    let* v_new :=
      if bool_decide (target = RGBA) then convert_r_to_rgba v
      else convert_rgba_to_r v in
    let* ts_height := TextureShape.get v in
    let* ts_width := TextureShape.get v in
    TextureShape.set v_new ts_height.1 ts_width.2 ;;
    replace_input op v v_new ;;
    ret true.

(** [_replace_output(op, var_name, target)] *)
Definition _replace_output (op : OpId) (var_name : string) (target : ChannelModeEnum)
  : M bool :=
  let* v := output_of op var_name in
  let* mode := ChannelMode.get v in
  if bool_decide (mode = target) then ret false
  else
    let* x := read_var v in
    let* v_new := Variable_new (shape x) (order x) in
    ChannelMode.set v_new target ;;
    replace_output op v v_new ;;
    (if bool_decide (target = RGBA) then
       let* c := convert_rgba_to_r v_new in
       let* x := read_var v in
       let* c := change_order c (order x) in
       Variable_replace c v
     else
       let* c := convert_r_to_rgba v_new in
       let* x := read_var v in
       let* c := change_order c (order x) in
       Variable_replace c v) ;;
    ret true.

(** [_replace_input_all(op, target)] and [_replace_output_all(op, target)].
    The keys are those of the dictionary when the generator starts: a call
    that returns [False] leaves the dictionary as it is, and the first call
    that returns [True] ends the iteration. *)
Definition _replace_input_all (op : OpId) (target : ChannelModeEnum) : M bool :=
  let* o := read_op op in
  any_of (inputs o).*1 (fun var_name => _replace_input op var_name target).

Definition _replace_output_all (op : OpId) (target : ChannelModeEnum) : M bool :=
  let* o := read_op op in
  any_of (outputs o).*1 (fun var_name => _replace_output op var_name target).

(** The body of the loop of [optimize] for one operator; [flag_changed] is
    threaded through the [|=] assignments. *)
Definition optimize_body (flag_changed : bool) (op : OpId) : M bool :=
  let* o := read_op op in
  match op_class o with
  | Sgemm | Tensordot => ret flag_changed
  | ConvertRGBAtoR =>
      let* b := _replace_input op "x0" RGBA in
      let flag_changed := flag_changed || b in
      let* b := _replace_output op "y" R in
      ret (flag_changed || b)
  | ConvertRtoRGBA =>
      let* b := _replace_input op "x0" R in
      let flag_changed := flag_changed || b in
      let* b := _replace_output op "y" RGBA in
      ret (flag_changed || b)
  | _ =>
      let* b := _replace_input_all op R in
      let flag_changed := flag_changed || b in
      let* b := _replace_output_all op R in
      ret (flag_changed || b)
  end.

Fixpoint optimize_loop (flag_changed : bool) (ops : list OpId) : M bool :=
  match ops with
  | [] => ret flag_changed
  | op :: ops' =>
      let* flag_changed := optimize_body flag_changed op in
      optimize_loop flag_changed ops'
  end.

(** [InsertChannelModeConversion.optimize(self, graph)] *)
Definition optimize (graph : Graph) : M (Graph * bool) :=
  let* ops := (fun h => Ok (listup_operators graph h, h)) in
  let* flag_changed := optimize_loop false ops in
  ret (graph, flag_changed).

End rule.

End InsertChannelModeConversion.

(** ** [webdnn/backend/webassembly/optimize_rules/webassembly_optimize_rule.py] *)

Module WebassemblyOptimizeRule.

(** The rule classes the group instantiates; [DumpGraph] takes its filename
    template. *)
Inductive OptimizeRule :=
  | InsertTranspose
  | ReplaceConvolutionByIm2Col
  | MergeSgemmAndElementwiseMul
  | ConstantFolding
  | ReplaceDeconvolutionByCol2Im
  | ReplaceLinearBySgemm
  | UseEigen
  | ElementwiseKernelFusion
  | UpdateInplaceAttribute
  | DumpGraph (filename : string).

#[global] Instance OptimizeRule_eq_dec : EqDecision OptimizeRule.
Proof. solve_decision. Defined.

(** [WebassemblyOptimizeRule.__init__(self)]: the list handed to the
    constructor of the rule group; [DEBUG] is [flags.DEBUG]. *)
Definition __init__ (DEBUG : bool) : list OptimizeRule :=
  let sub_rules :=
    [InsertTranspose;
     ReplaceConvolutionByIm2Col;
     MergeSgemmAndElementwiseMul;
     ConstantFolding;
     ReplaceDeconvolutionByCol2Im;
     MergeSgemmAndElementwiseMul;
     ConstantFolding;
     ReplaceLinearBySgemm;
     MergeSgemmAndElementwiseMul;
     ConstantFolding;
     UseEigen;
     ElementwiseKernelFusion;
     UpdateInplaceAttribute] in
  let sub_rules :=
    if DEBUG then sub_rules ++ [DumpGraph "cg{count}.dot"] else sub_rules in
  sub_rules.

(** The fusion rules of the group. *)
Definition is_fusion (r : OptimizeRule) : bool :=
  match r with
  | MergeSgemmAndElementwiseMul | ElementwiseKernelFusion => true
  | _ => false
  end.

Definition is_dump (r : OptimizeRule) : bool :=
  match r with
  | DumpGraph _ => true
  | _ => false
  end.

End WebassemblyOptimizeRule.

(** * Vocabulary of the statements *)

(** The attributes [exec] adds: one [Tensorwise] per axis other than H and W,
    in the order of the axes. *)
Definition tensorwise_axes (axes : Order) : list OperatorAttribute :=
  Tensorwise <$> filter (fun a => a <> Axis.H /\ a <> Axis.W) axes.

Definition with_attributes (op : operator) (attrs : list OperatorAttribute) : operator :=
  mkOperator (op_class op) (op_name op) (parameters op) (inputs op) (outputs op) attrs.

Definition with_outputs (op : operator) (outs : list (string * VarId)) : operator :=
  mkOperator (op_class op) (op_name op) (parameters op) (inputs op) outs (attributes op).

(** The extent [exec] computes along a spatial axis, and its warning test. *)
Definition out_extent (x p s k : Z) : Z := ((x + 2 * p + s - k - 1) `div` s + 1)%Z.

Definition edge_ignored (xh xw : Z) (p s k : Z * Z) : bool :=
  negb (bool_decide ((xh + 2 * p.1 - k.1) `mod` s.1 = 0)%Z)
  || negb (bool_decide ((xw + 2 * p.2 - k.2) `mod` s.2 = 0)%Z).

(** The output variable before and after [change_order], and the store that
    [exec] leaves. *)
Definition y_nhwc (n xh xw c : Z) (ksize stride padding : Z * Z) : variable :=
  mkVariable [n; out_extent xh padding.1 stride.1 ksize.1;
              out_extent xw padding.2 stride.2 ksize.2; c] OrderNHWC None None.

Definition y_out (xv : variable) (n xh xw c : Z) (ksize stride padding : Z * Z)
  : variable :=
  mkVariable ((fun a => default 1%Z (shape_dict (y_nhwc n xh xw c ksize stride padding) a))
                <$> order xv)
             (order xv) None None.

Definition heap_out (h : Heap) (self : OpId) (op : operator) (xv : variable)
    (n xh xw c : Z) (ksize stride padding : Z * Z) : Heap :=
  mkHeap (variables h ++ [y_out xv n xh xw c ksize stride padding])
         (<[self := with_attributes
                      (with_outputs op (slot_set (outputs op) "y" (length (variables h))))
                      (attributes op ++ tensorwise_axes (order xv))]> (operators h))
         (console h ++ (if edge_ignored xh xw padding stride ksize
                        then [Pooling2D.edge_warning] else [])).

(** The operator a successful construction leaves in the store. *)
Definition init_op (name : option string) (ksize stride padding : Pooling2D.IntOrTuple) : operator :=
  mkOperator Pooling2DClass name
    (<["padding" := Pooling2D.to_tuple padding]>
       (<["stride" := Pooling2D.to_tuple stride]> (<["ksize" := Pooling2D.to_tuple ksize]> ∅)))
    [] [] [].

(** An 8x8 input with one batch entry and 16 channels, read by a pooling
    operator with kernel 3, stride 2 and padding 0. *)
Definition heap_8x8 : Heap :=
  mkHeap [mkVariable [1; 8; 8; 16]%Z OrderNHWC None None]
         [mkOperator Pooling2DClass None
            (parameters (init_op None (Pooling2D.Int 3) (Pooling2D.Int 2) (Pooling2D.Int 0))) [("x", 0)] [] []]
         [].

(** The same operator reading an input with a fifth axis, T, of extent 5
    between N and H. *)
Definition heap_5axes : Heap :=
  mkHeap [mkVariable [1; 5; 8; 8; 16]%Z [Axis.N; Axis.T; Axis.H; Axis.W; Axis.C] None None]
         [mkOperator Pooling2DClass None
            (parameters (init_op None (Pooling2D.Int 3) (Pooling2D.Int 2) (Pooling2D.Int 0))) [("x", 0)] [] []]
         [].

Definition with_inputs (op : operator) (ins : list (string * VarId)) : operator :=
  mkOperator (op_class op) (op_name op) (parameters op) ins (outputs op) (attributes op).

Definition rebind_op (v v_new : VarId) (op : operator) : operator :=
  mkOperator (op_class op) (op_name op) (parameters op)
    (rebind v v_new (inputs op)) (rebind v v_new (outputs op)) (attributes op).

(** What [ChannelMode.get] and [TextureShape.get] report for a variable. *)
Definition mode_of `{Externals} (x : variable) : ChannelModeEnum :=
  default default_channel_mode (channel_mode x).

Definition texture_of `{Externals} (x : variable) : Z * Z :=
  default (default_texture_shape x) (texture_shape x).

(** The conversion operator spliced before an input slot, and behind an output
    slot, that is driven to [target]. *)
Definition input_conversion (target : ChannelModeEnum) : OperatorClass :=
  if bool_decide (target = RGBA) then ConvertRtoRGBA else ConvertRGBAtoR.

Definition output_conversion (target : ChannelModeEnum) : OperatorClass :=
  if bool_decide (target = RGBA) then ConvertRGBAtoR else ConvertRtoRGBA.

Definition other_mode (m : ChannelModeEnum) : ChannelModeEnum :=
  match m with R => RGBA | RGBA => R end.

Definition conversion_op (cls : OperatorClass) (x0 y : VarId) : operator :=
  mkOperator cls None ∅ [("x0", x0)] [("y", y)] [].

Definition is_conversion (cls : OperatorClass) : Prop :=
  cls = ConvertRGBAtoR \/ cls = ConvertRtoRGBA.

(** The store after [_replace_input] has spliced a conversion before the slots
    of [o] bound to [v]. *)
Definition input_spliced `{Externals} (h : Heap) (o : OpId) (op : operator)
    (v : VarId) (x : variable) (target : ChannelModeEnum) : Heap :=
  mkHeap
    (variables h
     ++ [mkVariable (shape x) (order x) (Some target)
           (Some ((texture_of x).1, (texture_of x).2))])
    (<[o := with_inputs op (rebind v (length (variables h)) (inputs op))]> (operators h)
     ++ [conversion_op (input_conversion target) v (length (variables h))])
    (console h).

(** The store after [_replace_output] has spliced a conversion behind the
    slots of [o] bound to [v]. *)
Definition output_spliced (h : Heap) (o : OpId) (op : operator)
    (v : VarId) (x : variable) (target : ChannelModeEnum) : Heap :=
  mkHeap
    (variables h
     ++ [mkVariable (shape x) (order x) (Some target) None;
         mkVariable ((fun a => default 1%Z (dict_zip (order x) (shape x) a)) <$> order x)
           (order x) (Some (other_mode target)) None])
    (rebind_op (S (length (variables h))) v
       <$> (<[o := with_outputs op (rebind v (length (variables h)) (outputs op))]>
              (operators h)
            ++ [conversion_op (output_conversion target) (length (variables h))
                  (S (length (variables h)))]))
    (console h).

(** The mode [ChannelMode.get] reports for the variable bound to slot [name]
    of the slot dictionary [d] is [target]. *)
Definition slot_has_mode `{Externals} (h : Heap) (d : list (string * VarId))
    (name : string) (target : ChannelModeEnum) : bool :=
  bool_decide (mode_of <$> (slot_get d name ≫= fun v => variables h !! v) = Some target).

Definition all_slots_have_mode `{Externals} (h : Heap) (d : list (string * VarId))
    (target : ChannelModeEnum) : bool :=
  forallb (fun name => slot_has_mode h d name target) d.*1.

(** Every slot of operator [o] carries the mode that the class of [o]
    requires: none for the matrix-multiply family, RGBA in and R out for
    ConvertRGBAtoR, R in and RGBA out for ConvertRtoRGBA, R on every slot for
    the other classes. *)
Definition settled `{Externals} (h : Heap) (o : OpId) : bool :=
  match operators h !! o with
  | None => false
  | Some op =>
      match op_class op with
      | Sgemm | Tensordot => true
      | ConvertRGBAtoR =>
          slot_has_mode h (inputs op) "x0" RGBA && slot_has_mode h (outputs op) "y" R
      | ConvertRtoRGBA =>
          slot_has_mode h (inputs op) "x0" R && slot_has_mode h (outputs op) "y" RGBA
      | _ =>
          all_slots_have_mode h (inputs op) R && all_slots_have_mode h (outputs op) R
      end
  end.


(** The slots of [op] are bound to variables of the store. *)
Definition slots_bound (h : Heap) (op : operator) : Prop :=
  forall name v,
    (name, v) ∈ inputs op \/ (name, v) ∈ outputs op -> v < length (variables h).



(** How a store may change while the pass runs: operators keep their place,
    class and slot names, variables keep their content, and every operator
    that is new is a conversion. *)
Record evolves (h h' : Heap) : Prop := {
  evolves_operators : forall o op,
    operators h !! o = Some op ->
    exists op', operators h' !! o = Some op'
                /\ op_class op' = op_class op
                /\ (inputs op').*1 = (inputs op).*1
                /\ (outputs op').*1 = (outputs op).*1;
  evolves_variables : forall v x,
    variables h !! v = Some x -> variables h' !! v = Some x;
  evolves_new : forall o op,
    operators h !! o = None -> operators h' !! o = Some op ->
    is_conversion (op_class op);
  evolves_console : console h' = console h
}.

(** No slot of an operator of the store refers to a variable outside it. *)
Definition no_dangling (h : Heap) : Prop :=
  forall o op name v,
    operators h !! o = Some op ->
    (name, v) ∈ inputs op \/ (name, v) ∈ outputs op ->
    v < length (variables h).

(** What a call that returns a changed-flag may do to the store: with
    [False] nothing, with [True] the store evolves and gains an operator. *)
Definition outcome (h : Heap) (r : Result (bool * Heap)) : Prop :=
  match r with
  | Raise _ => True
  | Ok (false, h') => h' = h
  | Ok (true, h') => evolves h h' /\ length (operators h) < length (operators h')
  end.

(** ** Concrete graphs *)

(** Defaults R and a one-by-one texture, and the listing of the operators in
    the order of the arena. *)
Definition example_externals : Externals :=
  {| default_channel_mode := R;
     default_texture_shape := fun _ => (1, 1)%Z;
     listup_operators := fun _ h => seq 0 (length (operators h)) |}.

(** An elementwise addition whose two inputs are both in RGBA mode. *)
Definition heap_two_rgba_inputs : Heap :=
  mkHeap
    [mkVariable [2; 3]%Z [Axis.N; Axis.C] (Some RGBA) (Some (4, 8)%Z);
     mkVariable [2; 3]%Z [Axis.N; Axis.C] (Some RGBA) (Some (4, 8)%Z);
     mkVariable [2; 3]%Z [Axis.N; Axis.C] (Some R) None]
    [mkOperator (OtherOperator "ElementwiseAdd") None ∅
       [("x0", 0); ("x1", 1)] [("y", 2)] []]
    [].

Definition graph_two_rgba_inputs : Graph := mkGraph [0; 1] [2].

(** A Relu that writes a variable in RGBA mode with a 4 by 8 texture, which a
    Tanh reads. *)
Definition heap_rgba_output : Heap :=
  mkHeap
    [mkVariable [2; 3]%Z [Axis.N; Axis.C] (Some R) None;
     mkVariable [2; 3]%Z [Axis.N; Axis.C] (Some RGBA) (Some (4, 8)%Z);
     mkVariable [2; 3]%Z [Axis.N; Axis.C] (Some R) None]
    [mkOperator (OtherOperator "Relu") None ∅ [("x0", 0)] [("y", 1)] [];
     mkOperator (OtherOperator "Tanh") None ∅ [("x0", 1)] [("y", 2)] []]
    [].

Definition graph_rgba_output : Graph := mkGraph [0] [2].

(** A convolution that reads a variable in RGBA mode, before the pass and
    after one invocation of it. *)
Definition heap_rgba_producer : Heap :=
  mkHeap
    [mkVariable [1; 4; 4; 8]%Z OrderNHWC (Some RGBA) (Some (4, 8)%Z);
     mkVariable [1; 4; 4; 8]%Z OrderNHWC (Some R) None]
    [mkOperator (OtherOperator "Convolution2D") None ∅ [("x", 0)] [("y", 1)] []]
    [].

Definition heap_rgba_producer_converted : Heap :=
  mkHeap
    [mkVariable [1; 4; 4; 8]%Z OrderNHWC (Some RGBA) (Some (4, 8)%Z);
     mkVariable [1; 4; 4; 8]%Z OrderNHWC (Some R) None;
     mkVariable [1; 4; 4; 8]%Z OrderNHWC (Some R) (Some (4, 8)%Z)]
    [mkOperator (OtherOperator "Convolution2D") None ∅ [("x", 2)] [("y", 1)] [];
     mkOperator ConvertRGBAtoR None ∅ [("x0", 0)] [("y", 2)] []]
    [].

Definition graph_rgba_producer : Graph := mkGraph [0] [1].

(** ** Well-formed stores and the count of mismatched slots *)

(** Every conversion operator of the store has the two slots that [optimize]
    reads by name. *)
Definition conversions_have_slots (h : Heap) : Prop :=
  forall o op,
    operators h !! o = Some op -> is_conversion (op_class op) ->
    "x0" ∈ (inputs op).*1 /\ "y" ∈ (outputs op).*1.

Definition well_formed (h : Heap) : Prop :=
  no_dangling h /\ conversions_have_slots h.

Definition well_formedb (h : Heap) : bool :=
  forallb (fun op =>
             forallb (fun kv : string * VarId => bool_decide (kv.2 < length (variables h)))
               (inputs op ++ outputs op)
             && match op_class op with
                | ConvertRGBAtoR | ConvertRtoRGBA =>
                    bool_decide ("x0" ∈ (inputs op).*1)
                    && bool_decide ("y" ∈ (outputs op).*1)
                | _ => true
                end) (operators h).

(** The slots that the loop body of [optimize] drives, and the mode it drives
    them to, on the input side and on the output side of an operator. *)
Definition input_requirement (op : operator) : list string * ChannelModeEnum :=
  match op_class op with
  | Sgemm | Tensordot => ([], R)
  | ConvertRGBAtoR => (["x0"], RGBA)
  | ConvertRtoRGBA => (["x0"], R)
  | _ => ((inputs op).*1, R)
  end.

Definition output_requirement (op : operator) : list string * ChannelModeEnum :=
  match op_class op with
  | Sgemm | Tensordot => ([], R)
  | ConvertRGBAtoR => (["y"], R)
  | ConvertRtoRGBA => (["y"], RGBA)
  | _ => ((outputs op).*1, R)
  end.

(** The variables bound in a slot dictionary are in the store; every variable
    of a store is in another with the same content. *)
Definition slots_below_store (h : Heap) (d : list (string * VarId)) : Prop :=
  forall k u, (k, u) ∈ d -> u < length (variables h).

Definition variables_kept (h h' : Heap) : Prop :=
  forall u xu, variables h !! u = Some xu -> variables h' !! u = Some xu.

(** The number of driven slots that do not carry their mode. *)
Definition mismatch `{Externals} (h : Heap) (d : list (string * VarId))
    (target : ChannelModeEnum) (name : string) : nat :=
  if slot_has_mode h d name target then 0 else 1.

Definition side_mismatches `{Externals} (h : Heap) (d : list (string * VarId))
    (req : list string * ChannelModeEnum) : nat :=
  sum_list_with (mismatch h d req.2) req.1.

Definition mismatches `{Externals} (h : Heap) (op : operator) : nat :=
  side_mismatches h (inputs op) (input_requirement op)
  + side_mismatches h (outputs op) (output_requirement op).

Definition total_mismatches `{Externals} (h : Heap) : nat :=
  sum_list_with (mismatches h) (operators h).

(** What one call of the pass leaves behind on a well-formed store: a
    well-formed store that evolved from it; with [True] one more operator and
    fewer mismatched slots, with [False] the same store. *)
Definition progress `{Externals} (h : Heap) (b : bool) (h' : Heap) : Prop :=
  well_formed h'
  /\ evolves h h'
  /\ if b then length (operators h') = S (length (operators h))
               /\ total_mismatches h' < total_mismatches h
     else h' = h.

(** What the loop body of [optimize] leaves behind for one operator, and the
    loop for a list of [k] operators: at most two new operators each. *)
Definition body_progress `{Externals} (k : nat) (h : Heap) (b : bool) (h' : Heap)
  : Prop :=
  well_formed h'
  /\ evolves h h'
  /\ length (operators h') <= length (operators h) + 2 * k
  /\ if b then length (operators h) < length (operators h')
               /\ total_mismatches h' < total_mismatches h
     else h' = h.

(** [optimize] invoked again and again on the same graph for as long as it
    reports a change, at most [fuel] times; the result tells whether an
    invocation reported no change. *)
Fixpoint optimize_repeatedly `{Externals} (fuel : nat) (graph : Graph) : M bool :=
  match fuel with
  | 0 => ret false
  | S fuel' =>
      let* r := InsertChannelModeConversion.optimize graph in
      if r.2 : bool then optimize_repeatedly fuel' graph else ret true
  end.



(** A store with a Sgemm that writes an RGBA variable, read by a Relu whose
    output is in RGBA mode too and is read by a ConvertRGBAtoR. *)
Definition heap_chain : Heap :=
  mkHeap
    [mkVariable [2; 3]%Z [Axis.N; Axis.C] (Some R) None;
     mkVariable [2; 3]%Z [Axis.N; Axis.C] (Some RGBA) (Some (4, 8)%Z);
     mkVariable [2; 3]%Z [Axis.N; Axis.C] (Some RGBA) None;
     mkVariable [2; 3]%Z [Axis.N; Axis.C] (Some R) None]
    [mkOperator Sgemm None ∅ [("A", 0); ("B", 0)] [("C", 1)] [];
     mkOperator (OtherOperator "Relu") None ∅ [("x0", 1)] [("y", 2)] [];
     mkOperator ConvertRGBAtoR None ∅ [("x0", 2)] [("y", 3)] []]
    [].

Definition graph_chain : Graph := mkGraph [0] [3].

(** * Properties *)

(** ** The store monad *)

Lemma bind_ok {A B} (m : M A) (k : A -> M B) h a h' :
  m h = Ok (a, h') -> bind m k h = k a h'.
Proof. unfold bind. intros ->. reflexivity. Qed.

Lemma bind_raise {A B} (m : M A) (k : A -> M B) h e :
  m h = Raise e -> bind m k h = Raise e.
Proof. unfold bind. intros ->. reflexivity. Qed.

Lemma bind_inv {A B} (m : M A) (k : A -> M B) h b h'' :
  bind m k h = Ok (b, h'') ->
  exists a h', m h = Ok (a, h') /\ k a h' = Ok (b, h'').
Proof.
  unfold bind. destruct (m h) as [[a h']|e]; [|discriminate].
  intros Hk. exists a, h'. split; [reflexivity|exact Hk].
Qed.

Lemma read_var_ok v x h :
  variables h !! v = Some x -> read_var v h = Ok (x, h).
Proof. unfold read_var. intros ->. reflexivity. Qed.

Lemma read_op_ok o x h :
  operators h !! o = Some x -> read_op o h = Ok (x, h).
Proof. unfold read_op. intros ->. reflexivity. Qed.

Lemma write_var_ok v x h :
  v < length (variables h) ->
  write_var v x h
  = Ok (tt, mkHeap (<[v := x]> (variables h)) (operators h) (console h)).
Proof. unfold write_var. intros Hlt. rewrite decide_True by exact Hlt. reflexivity. Qed.

Lemma write_op_ok o x h :
  o < length (operators h) ->
  write_op o x h
  = Ok (tt, mkHeap (variables h) (<[o := x]> (operators h)) (console h)).
Proof. unfold write_op. intros Hlt. rewrite decide_True by exact Hlt. reflexivity. Qed.

(** ** Dictionaries *)

Lemma dict_zip_Some_elem {K V} `{EqDecision K} (ks : list K) (vs : list V) k v :
  dict_zip ks vs k = Some v -> k ∈ ks.
Proof.
  revert vs. induction ks as [|k' ks IH]; intros [|v' vs] Hd; try discriminate.
  cbn [dict_zip] in Hd.
  destruct (dict_zip ks vs k) eqn:Hd2.
  - right. eapply IH. injection Hd as <-. exact Hd2.
  - destruct (decide (k = k')) as [->|]; [left|discriminate].
Qed.

Lemma dict_zip_fmap {K V} `{EqDecision K} (f : K -> V) (ks : list K) (k : K) :
  k ∈ ks -> dict_zip ks (f <$> ks) k = Some (f k).
Proof.
  induction ks as [|k' ks IH]; intros Hin.
  - inversion Hin.
  - cbn [fmap list_fmap dict_zip].
    change (list_fmap K V f ks) with (f <$> ks).
    destruct (dict_zip ks (f <$> ks) k) as [v|] eqn:Hd.
    + apply IH. eapply dict_zip_Some_elem. exact Hd.
    + apply elem_of_cons in Hin. destruct Hin as [<-|Hin].
      * rewrite decide_True by reflexivity. reflexivity.
      * specialize (IH Hin). discriminate.
Qed.

Lemma slot_get_set_eq d k v : slot_get (slot_set d k v) k = Some v.
Proof.
  induction d as [|[k' v'] d IH]; cbn [slot_set slot_get].
  - rewrite decide_True by reflexivity. reflexivity.
  - destruct (decide (k = k')) as [->|Hne]; cbn [slot_get].
    + rewrite decide_True by reflexivity. reflexivity.
    + rewrite decide_False by exact Hne. exact IH.
Qed.

Lemma slot_get_set_ne d k k' v : k' <> k -> slot_get (slot_set d k v) k' = slot_get d k'.
Proof.
  intros Hne. induction d as [|[k2 v2] d IH]; cbn [slot_set slot_get].
  - rewrite decide_False by exact Hne. reflexivity.
  - destruct (decide (k = k2)) as [->|Hk]; cbn [slot_get].
    + rewrite !decide_False by exact Hne. reflexivity.
    + destruct (decide (k' = k2)); [reflexivity|exact IH].
Qed.

(** ** Pooling2D *)

Module Pooling2DSpec.
Import Pooling2D.

Lemma for_each_tensorwise self axes : forall h op,
  operators h !! self = Some op ->
  for_each axes (fun axis =>
    if bool_decide (axis = Axis.H) || bool_decide (axis = Axis.W) then ret tt
    else attributes_add self (Tensorwise axis)) h
  = Ok (tt, mkHeap (variables h)
              (<[self := with_attributes op (attributes op ++ tensorwise_axes axes)]>
                 (operators h))
              (console h)).
Proof.
  induction axes as [|a axes IH]; intros h op Hop.
  - cbn [for_each]. unfold ret, tensorwise_axes, with_attributes. cbn [filter list_filter fmap list_fmap].
    rewrite app_nil_r. destruct op; cbn. rewrite list_insert_id by exact Hop.
    destruct h; reflexivity.
  - cbn [for_each].
    destruct (bool_decide (a = Axis.H) || bool_decide (a = Axis.W)) eqn:Hb.
    + rewrite (bind_ok _ _ h tt h) by reflexivity.
      rewrite (IH h op Hop). unfold tensorwise_axes.
      rewrite filter_cons_False; [reflexivity|].
      apply orb_true_iff in Hb. intros [Hh Hw].
      destruct Hb as [Hb|Hb]; apply bool_decide_eq_true in Hb; contradiction.
    + pose proof (lookup_lt_Some _ _ _ Hop) as Hlt.
      erewrite bind_ok; cycle 1.
      { unfold attributes_add. erewrite bind_ok by (apply read_op_ok; exact Hop).
        apply write_op_ok. exact Hlt. }
      rewrite (IH _ (with_attributes op (attributes op ++ [Tensorwise a]))); cycle 1.
      { cbn. apply list_lookup_insert_eq. exact Hlt. }
      unfold with_attributes.
      cbn [variables operators console attributes op_class op_name parameters inputs outputs].
      rewrite list_insert_insert_eq. unfold tensorwise_axes.
      rewrite filter_cons_True; cycle 1.
      { apply orb_false_iff in Hb. destruct Hb as [Hh Hw].
        apply bool_decide_eq_false in Hh, Hw. split; assumption. }
      rewrite fmap_cons, <- app_assoc. reflexivity.
Qed.

Section exec.

Variables (h : Heap) (self : OpId) (op : operator) (x : VarId) (xv : variable).
Variables (ksize stride padding : Z * Z) (n xh xw c : Z).

Hypothesis Hop : operators h !! self = Some op.
Hypothesis Hx : slot_get (inputs op) "x" = Some x.
Hypothesis Hxv : variables h !! x = Some xv.
Hypothesis Hksize : parameters op !! "ksize" = Some ksize.
Hypothesis Hstride : parameters op !! "stride" = Some stride.
Hypothesis Hpadding : parameters op !! "padding" = Some padding.
Hypothesis Hstride0 : stride.1 <> 0%Z.
Hypothesis Hstride1 : stride.2 <> 0%Z.
Hypothesis HN : shape_dict xv Axis.N = Some n.
Hypothesis HH : shape_dict xv Axis.H = Some xh.
Hypothesis HW : shape_dict xv Axis.W = Some xw.
Hypothesis HC : shape_dict xv Axis.C = Some c.

Local Abbreviation y_nhwc' := (y_nhwc n xh xw c ksize stride padding).
Local Abbreviation y_out' := (y_out xv n xh xw c ksize stride padding).
Local Abbreviation heap_out' := (heap_out h self op xv n xh xw c ksize stride padding).

Lemma parameter_ok key value h1 :
  operators h1 !! self = Some op ->
  parameters op !! key = Some value ->
  parameter self key h1 = Ok (value, h1).
Proof.
  intros H1 H2. unfold parameter.
  erewrite bind_ok by (apply read_op_ok; exact H1).
  rewrite H2. reflexivity.
Qed.

Lemma floordiv_ok a b h1 : b <> 0%Z -> floordiv a b h1 = Ok ((a `div` b)%Z, h1).
Proof. intros Hb. unfold floordiv. rewrite decide_False by exact Hb. reflexivity. Qed.

Lemma pymod_ok a b h1 : b <> 0%Z -> pymod a b h1 = Ok ((a `mod` b)%Z, h1).
Proof. intros Hb. unfold pymod. rewrite decide_False by exact Hb. reflexivity. Qed.

Lemma x_order_has a v : shape_dict xv a = Some v -> bool_decide (a ∈ order xv) = true.
Proof. intros Hd. apply bool_decide_eq_true. eapply dict_zip_Some_elem. exact Hd. Qed.

Ltac run_reads :=
  repeat (first [ erewrite (bind_ok (getitem (Some _))) by reflexivity
                | erewrite (bind_ok (parameter self _)) by
                    (apply parameter_ok; [exact Hop|eassumption])
                | erewrite (bind_ok (floordiv _ _)) by (apply floordiv_ok; assumption)
                | erewrite (bind_ok (pymod _ _)) by (apply pymod_ok; assumption) ]).

Lemma exec_eq : exec self h = Ok (length (variables h), heap_out').
Proof.
  pose proof (lookup_lt_Some _ _ _ Hop) as Hself.
  pose proof (lookup_lt_Some _ _ _ Hxv) as Hxlt.
  unfold exec.
  erewrite bind_ok; cycle 1.
  { unfold input_of. erewrite bind_ok by (apply read_op_ok; exact Hop).
    rewrite Hx. reflexivity. }
  erewrite bind_ok by (apply read_var_ok; exact Hxv).
  rewrite HN, HH, HW, HC.
  run_reads.
  erewrite (bind_ok _ _ h (edge_ignored xh xw padding stride ksize) h); cycle 1.
  { unfold edge_ignored.
    destruct (bool_decide ((xh + 2 * padding.1 - ksize.1) `mod` stride.1 = 0)%Z);
      cbn [negb orb]; [|reflexivity].
    run_reads. reflexivity. }
  erewrite (bind_ok _ _ h tt
              (mkHeap (variables h) (operators h)
                 (console h ++ (if edge_ignored xh xw padding stride ksize
                                then [edge_warning] else [])))); cycle 1.
  { destruct (edge_ignored xh xw padding stride ksize); [reflexivity|].
    rewrite app_nil_r. destruct h; reflexivity. }
  erewrite bind_ok by reflexivity.
  cbn [variables operators console].
  erewrite bind_ok; cycle 1.
  { apply read_var_ok. cbn [variables]. rewrite lookup_app_l by exact Hxlt. exact Hxv. }
  erewrite bind_ok; cycle 1.
  { unfold change_order.
    erewrite bind_ok; cycle 1.
    { apply read_var_ok. cbn [variables]. apply list_lookup_middle. reflexivity. }
    cbn [order forallb OrderNHWC].
    rewrite (x_order_has _ _ HN), (x_order_has _ _ HH), (x_order_has _ _ HW),
      (x_order_has _ _ HC).
    cbn [orb andb].
    erewrite bind_ok; cycle 1.
    { apply write_var_ok. cbn [variables]. rewrite length_app. cbn [length]. lia. }
    reflexivity. }
  cbn [variables operators console channel_mode texture_shape].
  rewrite insert_app_r_alt by lia. rewrite Nat.sub_diag. cbn [insert list_insert].
  erewrite bind_ok; cycle 1.
  { unfold append_output. erewrite bind_ok by (apply read_op_ok; exact Hop).
    apply write_op_ok. exact Hself. }
  cbn [variables operators console].
  erewrite bind_ok; cycle 1.
  { apply read_var_ok. cbn [variables]. rewrite lookup_app_l by exact Hxlt. exact Hxv. }
  erewrite bind_ok; cycle 1.
  { apply for_each_tensorwise. cbn [operators]. apply list_lookup_insert_eq. exact Hself. }
  cbn [variables operators console]. rewrite list_insert_insert_eq.
  reflexivity.
Qed.

Lemma y_out_shape_dict a v :
  shape_dict xv a = Some v ->
  shape_dict y_out' a = Some (default 1%Z (shape_dict y_nhwc' a)).
Proof.
  intros Ha. unfold shape_dict at 1. unfold y_out. cbn [order shape].
  apply (dict_zip_fmap (fun a => default 1%Z (shape_dict y_nhwc' a))).
  eapply dict_zip_Some_elem. exact Ha.
Qed.

Lemma heap_out_y : variables heap_out' !! length (variables h) = Some y_out'.
Proof. unfold heap_out. cbn [variables]. apply list_lookup_middle. reflexivity. Qed.

Lemma heap_out_self :
  operators heap_out' !! self
  = Some (with_attributes
            (with_outputs op (slot_set (outputs op) "y" (length (variables h))))
            (attributes op ++ tensorwise_axes (order xv))).
Proof.
  unfold heap_out. cbn [operators]. apply list_lookup_insert_eq.
  eapply lookup_lt_Some. exact Hop.
Qed.

Lemma y_out_shape_dict_elem a :
  a ∈ order xv ->
  shape_dict y_out' a = Some (default 1%Z (shape_dict y_nhwc' a)).
Proof.
  intros Ha. unfold shape_dict at 1. unfold y_out. cbn [order shape].
  apply (dict_zip_fmap (fun a => default 1%Z (shape_dict y_nhwc' a))). exact Ha.
Qed.

Lemma y_out_shape_dict_None a : a ∉ order xv -> shape_dict y_out' a = None.
Proof.
  intros Ha. destruct (shape_dict y_out' a) as [v|] eqn:Hd; [|reflexivity].
  exfalso. apply Ha. unfold shape_dict, y_out in Hd. cbn [order shape] in Hd.
  eapply dict_zip_Some_elem. exact Hd.
Qed.

(** C10, as amended: the output of [exec] is a new variable with the Order of
    the input.  Its extents along N and C are the input's, its extents along H
    and W are recomputed by the floor-division formula, and every further axis
    of the input's Order has extent 1 in it, whatever its extent in the input;
    axes outside the input's Order have no extent.  The input and the other
    variables stay as they are, the operator gets the output in slot "y" and
    one Tensorwise attribute per axis of the input's Order other than H and
    W. *)
Theorem exec_keeps_order_batch_channel :
  exists y h' yv op',
    exec self h = Ok (y, h')
    /\ variables h !! y = None
    /\ variables h' !! y = Some yv
    /\ (forall v, v < length (variables h) -> variables h' !! v = variables h !! v)
    /\ variables h' !! x = Some xv
    /\ order yv = order xv
    /\ length (shape yv) = length (order xv)
    /\ shape_dict yv Axis.N = shape_dict xv Axis.N
    /\ shape_dict yv Axis.C = shape_dict xv Axis.C
    /\ shape_dict yv Axis.H
       = Some ((xh + 2 * padding.1 + stride.1 - ksize.1 - 1) `div` stride.1 + 1)%Z
    /\ shape_dict yv Axis.W
       = Some ((xw + 2 * padding.2 + stride.2 - ksize.2 - 1) `div` stride.2 + 1)%Z
    /\ (forall a, a ∈ order xv ->
        a <> Axis.N -> a <> Axis.C -> a <> Axis.H -> a <> Axis.W ->
        shape_dict yv a = Some 1%Z)
    /\ (forall a, a ∉ order xv -> shape_dict yv a = None)
    /\ operators h' !! self = Some op'
    /\ slot_get (outputs op') "y" = Some y
    /\ attributes op'
       = attributes op
         ++ (Tensorwise <$> filter (fun a => a <> Axis.H /\ a <> Axis.W) (order xv)).
Proof.
  exists (length (variables h)), heap_out', y_out'.
  eexists.
  split; [exact exec_eq|].
  split; [apply lookup_ge_None_2; lia|].
  split; [exact heap_out_y|].
  split.
  { intros v Hv. unfold heap_out. cbn [variables]. apply lookup_app_l. exact Hv. }
  split.
  { unfold heap_out. cbn [variables]. rewrite lookup_app_l; [exact Hxv|].
    eapply lookup_lt_Some. exact Hxv. }
  split; [reflexivity|].
  split; [unfold y_out; cbn [shape]; apply length_fmap|].
  split; [rewrite (y_out_shape_dict _ _ HN), HN; reflexivity|].
  split; [rewrite (y_out_shape_dict _ _ HC), HC; reflexivity|].
  split; [rewrite (y_out_shape_dict _ _ HH); reflexivity|].
  split; [rewrite (y_out_shape_dict _ _ HW); reflexivity|].
  split.
  { intros a Ha HaN HaC HaH HaW. rewrite (y_out_shape_dict_elem _ Ha).
    destruct a; try contradiction. reflexivity. }
  split; [exact y_out_shape_dict_None|].
  split; [exact heap_out_self|].
  split; [|reflexivity].
  cbn [with_attributes with_outputs outputs]. apply slot_get_set_eq.
Qed.


End exec.

Lemma init_op_parameters name ksize stride padding :
  parameters (init_op name ksize stride padding) !! "ksize" = Some (to_tuple ksize)
  /\ parameters (init_op name ksize stride padding) !! "stride" = Some (to_tuple stride)
  /\ parameters (init_op name ksize stride padding) !! "padding" = Some (to_tuple padding).
Proof.
  unfold init_op. cbn [parameters]. split; [|split].
  - rewrite !lookup_insert_ne by discriminate. apply lookup_insert_eq.
  - rewrite lookup_insert_ne by discriminate. apply lookup_insert_eq.
  - apply lookup_insert_eq.
Qed.

Lemma parameters_set_last key value op ops vars con :
  parameters_set (length ops) key value (mkHeap vars (ops ++ [op]) con)
  = Ok (tt, mkHeap vars
              (ops ++ [mkOperator (op_class op) (op_name op)
                         (<[key := value]> (parameters op))
                         (inputs op) (outputs op) (attributes op)]) con).
Proof.
  unfold parameters_set.
  erewrite bind_ok; cycle 1.
  { apply read_op_ok. cbn [operators]. apply list_lookup_middle. reflexivity. }
  rewrite write_op_ok by (cbn [operators]; rewrite length_app; cbn [length]; lia).
  cbn [variables operators console].
  rewrite insert_app_r_alt by lia. rewrite Nat.sub_diag. reflexivity.
Qed.

Lemma init_eq name ksize stride padding h :
  __init__ name ksize stride padding h
  = if bool_decide ((to_tuple ksize).1 >= (to_tuple stride).1)%Z
       && bool_decide ((to_tuple ksize).2 >= (to_tuple stride).2)%Z
    then Ok (length (operators h),
             mkHeap (variables h)
                    (operators h ++ [init_op name ksize stride padding]) (console h))
    else Raise AssertionError.
Proof.
  pose proof (init_op_parameters name ksize stride padding) as (Hk & Hs & _).
  unfold __init__.
  erewrite bind_ok by reflexivity.
  do 3 (erewrite bind_ok by apply parameters_set_last;
        cbn [op_class op_name parameters inputs outputs attributes]).
  fold (init_op name ksize stride padding).
  assert (Hread : forall key value,
            parameters (init_op name ksize stride padding) !! key = Some value ->
            parameter (length (operators h)) key
              (mkHeap (variables h) (operators h ++ [init_op name ksize stride padding])
                 (console h))
            = Ok (value, mkHeap (variables h)
                           (operators h ++ [init_op name ksize stride padding])
                           (console h))).
  { intros key value Hkey. unfold parameter.
    erewrite bind_ok; cycle 1.
    { apply read_op_ok. cbn [operators]. apply list_lookup_middle. reflexivity. }
    rewrite Hkey. reflexivity. }
  rewrite (bind_ok _ _ _ _ _ (Hread _ _ Hk)).
  rewrite (bind_ok _ _ _ _ _ (Hread _ _ Hs)).
  destruct (bool_decide ((to_tuple ksize).1 >= (to_tuple stride).1)%Z); [|reflexivity].
  erewrite bind_ok by reflexivity.
  rewrite (bind_ok _ _ _ _ _ (Hread _ _ Hk)).
  rewrite (bind_ok _ _ _ _ _ (Hread _ _ Hs)).
  destruct (bool_decide ((to_tuple ksize).2 >= (to_tuple stride).2)%Z); reflexivity.
Qed.

(** C1, as amended: with kernel 3, stride 2 and padding 0 on an input whose
    extents along H and W are 8, [exec] returns an output whose extents along
    H and W are 4, the value of (8 + 0 + 2 - 3 - 1) // 2 + 1. *)
Theorem exec_8x8_kernel3_stride2 h self op x xv n c :
  operators h !! self = Some op ->
  slot_get (inputs op) "x" = Some x ->
  variables h !! x = Some xv ->
  parameters op !! "ksize" = Some (to_tuple (Int 3)) ->
  parameters op !! "stride" = Some (to_tuple (Int 2)) ->
  parameters op !! "padding" = Some (to_tuple (Int 0)) ->
  shape_dict xv Axis.N = Some n ->
  shape_dict xv Axis.H = Some 8%Z ->
  shape_dict xv Axis.W = Some 8%Z ->
  shape_dict xv Axis.C = Some c ->
  exists y h' yv,
    exec self h = Ok (y, h')
    /\ variables h' !! y = Some yv
    /\ shape_dict yv Axis.H = Some ((8 + 0 + 2 - 3 - 1) `div` 2 + 1)%Z
    /\ shape_dict yv Axis.H = Some 4%Z
    /\ shape_dict yv Axis.W = Some 4%Z.
Proof.
  intros Hop Hx Hxv Hk Hs Hp HN HH HW HC.
  exists (length (variables h)),
    (heap_out h self op xv n 8 8 c (to_tuple (Int 3)) (to_tuple (Int 2)) (to_tuple (Int 0))),
    (y_out xv n 8 8 c (to_tuple (Int 3)) (to_tuple (Int 2)) (to_tuple (Int 0))).
  split.
  { apply (exec_eq h self op x xv _ _ _ n 8 8 c); try assumption; cbn; discriminate. }
  split; [apply heap_out_y|].
  rewrite (y_out_shape_dict xv _ _ _ n 8 8 c _ _ HH).
  rewrite (y_out_shape_dict xv _ _ _ n 8 8 c _ _ HW).
  repeat split.
Qed.

Lemma exec_8x8_kernel3_stride2_witness :
  exists y h' yv,
    exec 0 heap_8x8 = Ok (y, h')
    /\ variables h' !! y = Some yv
    /\ shape_dict yv Axis.H = Some ((8 + 0 + 2 - 3 - 1) `div` 2 + 1)%Z
    /\ shape_dict yv Axis.H = Some 4%Z
    /\ shape_dict yv Axis.W = Some 4%Z.
Proof.
  apply (exec_8x8_kernel3_stride2 heap_8x8 0
           (mkOperator Pooling2DClass None
              (parameters (init_op None (Int 3) (Int 2) (Int 0))) [("x", 0)] [] [])
           0 (mkVariable [1; 8; 8; 16]%Z OrderNHWC None None) 1 16);
    vm_compute; reflexivity.
Defined.

(** C1, as the claim has it, fails: on the 8x8 input the extents that [exec]
    computes along H and W are not 3. *)
Lemma exec_8x8_is_not_3x3 :
  ~ (exists y h' yv,
       exec 0 heap_8x8 = Ok (y, h')
       /\ variables h' !! y = Some yv
       /\ shape_dict yv Axis.H = Some 3%Z
       /\ shape_dict yv Axis.W = Some 3%Z).
Proof.
  intros (y & h' & yv & Hrun & Hy & HH & _).
  rewrite (exec_eq heap_8x8 0
             (mkOperator Pooling2DClass None
                (parameters (init_op None (Int 3) (Int 2) (Int 0))) [("x", 0)] [] [])
             0 (mkVariable [1; 8; 8; 16]%Z OrderNHWC None None)
             (3, 3)%Z (2, 2)%Z (0, 0)%Z 1 8 8 16) in Hrun;
    try (vm_compute; reflexivity); try (cbn; discriminate).
  injection Hrun as <- <-.
  vm_compute in Hy. injection Hy as <-.
  vm_compute in HH. discriminate.
Qed.

(** C5: construction raises exactly when the kernel is smaller than the stride
    along one of the two axes; otherwise it returns a new operator that holds
    the three parameters as pairs. *)
Theorem init_fails_iff_ksize_lt_stride name ksize stride padding h :
  ((exists e, __init__ name ksize stride padding h = Raise e)
   <-> ((to_tuple ksize).1 < (to_tuple stride).1
        \/ (to_tuple ksize).2 < (to_tuple stride).2)%Z)
  /\ (((to_tuple ksize).1 >= (to_tuple stride).1)%Z ->
      ((to_tuple ksize).2 >= (to_tuple stride).2)%Z ->
      exists self h' op,
        __init__ name ksize stride padding h = Ok (self, h')
        /\ operators h !! self = None
        /\ operators h' !! self = Some op
        /\ variables h' = variables h
        /\ (forall o, o < length (operators h) -> operators h' !! o = operators h !! o)
        /\ op_class op = Pooling2DClass
        /\ parameters op !! "ksize" = Some (to_tuple ksize)
        /\ parameters op !! "stride" = Some (to_tuple stride)
        /\ parameters op !! "padding" = Some (to_tuple padding)).
Proof.
  rewrite init_eq. split.
  - destruct (bool_decide_reflect ((to_tuple ksize).1 >= (to_tuple stride).1)%Z) as [H0|H0];
      destruct (bool_decide_reflect ((to_tuple ksize).2 >= (to_tuple stride).2)%Z) as [H1|H1];
      cbn [andb]; split;
      try (intros [e He]; discriminate He);
      try (intros _; exists AssertionError; reflexivity);
      try (intros _; lia); try lia.
  - intros H0 H1. rewrite !bool_decide_eq_true_2 by assumption. cbn [andb].
    pose proof (init_op_parameters name ksize stride padding) as (Hk & Hs & Hp).
    eexists (length (operators h)), _, (init_op name ksize stride padding).
    split; [reflexivity|]. cbn [variables operators].
    split; [apply lookup_ge_None_2; lia|].
    split; [apply list_lookup_middle; reflexivity|].
    split; [reflexivity|].
    split; [intros o Ho; apply lookup_app_l; exact Ho|].
    split; [reflexivity|]. auto.
Qed.

Lemma init_fails_iff_ksize_lt_stride_witness :
  exists self h' op,
    __init__ None (Int 3) (Int 2) (Int 0) (mkHeap [] [] []) = Ok (self, h')
    /\ operators (mkHeap [] [] []) !! self = None
    /\ operators h' !! self = Some op
    /\ variables h' = variables (mkHeap [] [] [])
    /\ (forall o, o < length (operators (mkHeap [] [] [])) ->
        operators h' !! o = operators (mkHeap [] [] []) !! o)
    /\ op_class op = Pooling2DClass
    /\ parameters op !! "ksize" = Some (to_tuple (Int 3))
    /\ parameters op !! "stride" = Some (to_tuple (Int 2))
    /\ parameters op !! "padding" = Some (to_tuple (Int 0)).
Proof.
  apply (proj2 (init_fails_iff_ksize_lt_stride None (Int 3) (Int 2) (Int 0)
                  (mkHeap [] [] []))); cbn; lia.
Defined.

Lemma exec_keeps_order_batch_channel_witness :
  exists y h' yv op',
    exec 0 heap_5axes = Ok (y, h')
    /\ variables heap_5axes !! y = None
    /\ variables h' !! y = Some yv
    /\ (forall v, v < length (variables heap_5axes) ->
        variables h' !! v = variables heap_5axes !! v)
    /\ variables h' !! 0
       = Some (mkVariable [1; 5; 8; 8; 16]%Z
                 [Axis.N; Axis.T; Axis.H; Axis.W; Axis.C] None None)
    /\ order yv = [Axis.N; Axis.T; Axis.H; Axis.W; Axis.C]
    /\ length (shape yv) = 5
    /\ shape_dict yv Axis.N = Some 1%Z
    /\ shape_dict yv Axis.C = Some 16%Z
    /\ shape_dict yv Axis.H = Some ((8 + 2 * 0 + 2 - 3 - 1) `div` 2 + 1)%Z
    /\ shape_dict yv Axis.W = Some ((8 + 2 * 0 + 2 - 3 - 1) `div` 2 + 1)%Z
    /\ (forall a, a ∈ [Axis.N; Axis.T; Axis.H; Axis.W; Axis.C] ->
        a <> Axis.N -> a <> Axis.C -> a <> Axis.H -> a <> Axis.W ->
        shape_dict yv a = Some 1%Z)
    /\ (forall a, a ∉ [Axis.N; Axis.T; Axis.H; Axis.W; Axis.C] -> shape_dict yv a = None)
    /\ operators h' !! 0 = Some op'
    /\ slot_get (outputs op') "y" = Some y
    /\ attributes op' = [Tensorwise Axis.N; Tensorwise Axis.T; Tensorwise Axis.C].
Proof.
  apply (exec_keeps_order_batch_channel heap_5axes 0
           (mkOperator Pooling2DClass None
              (parameters (init_op None (Int 3) (Int 2) (Int 0))) [("x", 0)] [] [])
           0 (mkVariable [1; 5; 8; 8; 16]%Z
                [Axis.N; Axis.T; Axis.H; Axis.W; Axis.C] None None)
           (3, 3)%Z (2, 2)%Z (0, 0)%Z 1 8 8 16);
    vm_compute; solve [reflexivity | discriminate].
Defined.

(** C10, as the claim has it, fails: on the input with the fifth axis T the
    output does not keep every extent other than those along H and W.  The
    output is built with the four axes N, H, W and C and then brought to the
    input's Order, which gives T the extent 1, not the input's 5. *)
Lemma exec_recomputes_further_axes :
  ~ (exists y h' xv yv,
       exec 0 heap_5axes = Ok (y, h')
       /\ variables heap_5axes !! 0 = Some xv
       /\ variables h' !! y = Some yv
       /\ order yv = order xv
       /\ shape_dict yv Axis.N = shape_dict xv Axis.N
       /\ shape_dict yv Axis.C = shape_dict xv Axis.C
       /\ (forall a, a <> Axis.H -> a <> Axis.W -> shape_dict yv a = shape_dict xv a)).
Proof.
  intros (y & h' & xv & yv & Hrun & Hxv & Hy & _ & _ & _ & Hrest).
  rewrite (exec_eq heap_5axes 0
             (mkOperator Pooling2DClass None
                (parameters (init_op None (Int 3) (Int 2) (Int 0))) [("x", 0)] [] [])
             0 (mkVariable [1; 5; 8; 8; 16]%Z
                  [Axis.N; Axis.T; Axis.H; Axis.W; Axis.C] None None)
             (3, 3)%Z (2, 2)%Z (0, 0)%Z 1 8 8 16) in Hrun;
    try (vm_compute; reflexivity); try (cbn; discriminate).
  injection Hrun as <- <-.
  vm_compute in Hxv. injection Hxv as <-.
  vm_compute in Hy. injection Hy as <-.
  specialize (Hrest Axis.T). vm_compute in Hrest.
  assert (Some 1%Z = Some 5%Z) as Hbad by (apply Hrest; discriminate).
  discriminate Hbad.
Qed.


End Pooling2DSpec.

(** ** The channel-mode conversion pass *)

Module ChannelModeSpec.
Import InsertChannelModeConversion.

Lemma evolves_refl h : evolves h h.
Proof.
  split.
  - intros o op Hop. exists op. auto.
  - auto.
  - intros o op Hn Hs. rewrite Hn in Hs. discriminate.
  - reflexivity.
Qed.

Lemma evolves_trans h1 h2 h3 : evolves h1 h2 -> evolves h2 h3 -> evolves h1 h3.
Proof.
  intros [O1 V1 N1 C1] [O2 V2 N2 C2]. split.
  - intros o op Hop. destruct (O1 _ _ Hop) as (op1 & H1 & Hc1 & Hi1 & Ho1).
    destruct (O2 _ _ H1) as (op2 & H2 & Hc2 & Hi2 & Ho2).
    exists op2. repeat split; [exact H2|congruence..].
  - auto.
  - intros o op Hn Hs. destruct (operators h2 !! o) as [op2|] eqn:H2.
    + destruct (O2 _ _ H2) as (op3 & H3 & Hc3 & _).
      rewrite Hs in H3. injection H3 as <-. rewrite Hc3. eapply N1; eassumption.
    + eapply N2; eassumption.
  - congruence.
Qed.

Lemma evolves_length_operators h h' :
  evolves h h' -> length (operators h) <= length (operators h').
Proof.
  intros [O _ _ _].
  destruct (decide (length (operators h) <= length (operators h'))) as [|Hgt];
    [assumption|].
  destruct (lookup_lt_is_Some_2 (operators h) (length (operators h'))) as [op Hop];
    [lia|].
  destruct (O _ _ Hop) as (op' & Hop' & _).
  apply lookup_lt_Some in Hop'. lia.
Qed.

Lemma rebind_fst a b d : (rebind a b d).*1 = d.*1.
Proof. unfold rebind. rewrite <- list_fmap_compose. reflexivity. Qed.

Lemma slot_get_rebind a b d k :
  slot_get (rebind a b d) k = (fun u => if decide (u = a) then b else u) <$> slot_get d k.
Proof.
  induction d as [|[k' u] d IH]; [reflexivity|].
  cbn [rebind fmap list_fmap slot_get fst snd].
  destruct (decide (k = k')); [reflexivity|exact IH].
Qed.

Lemma rebind_fresh a b d : Forall (fun kv => kv.2 <> a) d -> rebind a b d = d.
Proof.
  induction 1 as [|[k u] d Hu _ IH]; [reflexivity|].
  cbn [rebind fmap list_fmap fst snd] in *.
  rewrite decide_False by exact Hu. f_equal. exact IH.
Qed.

Lemma slot_get_elem d k v : slot_get d k = Some v -> (k, v) ∈ d.
Proof.
  induction d as [|[k' u] d IH]; [discriminate|]. cbn [slot_get].
  destruct (decide (k = k')) as [->|].
  - intros [= ->]. left.
  - intros Hd. right. exact (IH Hd).
Qed.

Lemma slot_get_is_Some d k : k ∈ d.*1 -> is_Some (slot_get d k).
Proof.
  induction d as [|[k' u] d IH]; cbn [fmap list_fmap fst slot_get].
  - intros Hin. inversion Hin.
  - intros Hin. destruct (decide (k = k')); [eexists; reflexivity|].
    apply IH. apply elem_of_cons in Hin. destruct Hin; [contradiction|assumption].
Qed.

Lemma insert_last {A} (l : list A) (x y : A) : <[length l := y]> (l ++ [x]) = l ++ [y].
Proof. rewrite insert_app_r_alt by lia. rewrite Nat.sub_diag. reflexivity. Qed.

Lemma forallb_member (l : Order) (g : Axis.t -> bool) :
  forallb (fun a => bool_decide (a ∈ l) || g a) l = true.
Proof.
  apply forallb_forall. intros a Ha. apply orb_true_iff. left.
  apply bool_decide_eq_true. apply list_elem_of_In. exact Ha.
Qed.

Section primitives.

Context `{Externals}.

Lemma append_input_ok o name v op h :
  operators h !! o = Some op ->
  append_input o name v h
  = Ok (tt, mkHeap (variables h)
              (<[o := with_inputs op (slot_set (inputs op) name v)]> (operators h))
              (console h)).
Proof.
  intros Hop. unfold append_input.
  erewrite bind_ok by (apply read_op_ok; exact Hop).
  apply write_op_ok. eapply lookup_lt_Some. exact Hop.
Qed.

Lemma append_output_ok o name v op h :
  operators h !! o = Some op ->
  append_output o name v h
  = Ok (tt, mkHeap (variables h)
              (<[o := with_outputs op (slot_set (outputs op) name v)]> (operators h))
              (console h)).
Proof.
  intros Hop. unfold append_output.
  erewrite bind_ok by (apply read_op_ok; exact Hop).
  apply write_op_ok. eapply lookup_lt_Some. exact Hop.
Qed.

Lemma replace_input_ok o v v_new op h :
  operators h !! o = Some op ->
  replace_input o v v_new h
  = Ok (tt, mkHeap (variables h)
              (<[o := with_inputs op (rebind v v_new (inputs op))]> (operators h))
              (console h)).
Proof.
  intros Hop. unfold replace_input.
  erewrite bind_ok by (apply read_op_ok; exact Hop).
  apply write_op_ok. eapply lookup_lt_Some. exact Hop.
Qed.

Lemma replace_output_ok o v v_new op h :
  operators h !! o = Some op ->
  replace_output o v v_new h
  = Ok (tt, mkHeap (variables h)
              (<[o := with_outputs op (rebind v v_new (outputs op))]> (operators h))
              (console h)).
Proof.
  intros Hop. unfold replace_output.
  erewrite bind_ok by (apply read_op_ok; exact Hop).
  apply write_op_ok. eapply lookup_lt_Some. exact Hop.
Qed.

Lemma ChannelMode_get_ok v x h :
  variables h !! v = Some x -> ChannelMode.get v h = Ok (mode_of x, h).
Proof.
  intros Hv. unfold ChannelMode.get.
  erewrite bind_ok by (apply read_var_ok; exact Hv). reflexivity.
Qed.

Lemma ChannelMode_set_ok v mode x h :
  variables h !! v = Some x ->
  ChannelMode.set v mode h
  = Ok (tt, mkHeap (<[v := mkVariable (shape x) (order x) (Some mode) (texture_shape x)]>
                      (variables h))
              (operators h) (console h)).
Proof.
  intros Hv. unfold ChannelMode.set.
  erewrite bind_ok by (apply read_var_ok; exact Hv).
  apply write_var_ok. eapply lookup_lt_Some. exact Hv.
Qed.

Lemma TextureShape_get_ok v x h :
  variables h !! v = Some x -> TextureShape.get v h = Ok (texture_of x, h).
Proof.
  intros Hv. unfold TextureShape.get.
  erewrite bind_ok by (apply read_var_ok; exact Hv). reflexivity.
Qed.

Lemma TextureShape_set_ok v height width x h :
  variables h !! v = Some x ->
  TextureShape.set v height width h
  = Ok (tt, mkHeap (<[v := mkVariable (shape x) (order x) (channel_mode x)
                             (Some (height, width))]> (variables h))
              (operators h) (console h)).
Proof.
  intros Hv. unfold TextureShape.set.
  erewrite bind_ok by (apply read_var_ok; exact Hv).
  apply write_var_ok. eapply lookup_lt_Some. exact Hv.
Qed.

Lemma change_order_same v x h :
  variables h !! v = Some x ->
  change_order v (order x) h
  = Ok (v, mkHeap (<[v := mkVariable
                            ((fun a => default 1%Z (shape_dict x a)) <$> order x)
                            (order x) (channel_mode x) (texture_shape x)]> (variables h))
             (operators h) (console h)).
Proof.
  intros Hv. unfold change_order.
  erewrite bind_ok by (apply read_var_ok; exact Hv).
  rewrite forallb_member.
  erewrite bind_ok by (apply write_var_ok; eapply lookup_lt_Some; exact Hv).
  reflexivity.
Qed.

Lemma convert_eq cls emitted x0 x h :
  variables h !! x0 = Some x ->
  convert cls emitted x0 h
  = Ok (length (variables h),
        mkHeap (variables h ++ [mkVariable (shape x) (order x) (Some emitted) None])
               (operators h ++ [conversion_op cls x0 (length (variables h))])
               (console h)).
Proof.
  intros Hx. unfold convert.
  erewrite bind_ok by reflexivity.
  erewrite bind_ok by (apply read_var_ok; exact Hx).
  erewrite bind_ok by reflexivity.
  cbn [variables operators console].
  erewrite bind_ok; cycle 1.
  { apply append_input_ok. cbn [operators]. apply list_lookup_middle. reflexivity. }
  cbn [variables operators console]. rewrite insert_last.
  erewrite bind_ok; cycle 1.
  { apply append_output_ok. cbn [operators]. apply list_lookup_middle. reflexivity. }
  cbn [variables operators console]. rewrite insert_last.
  erewrite bind_ok; cycle 1.
  { apply ChannelMode_set_ok. cbn [variables]. apply list_lookup_middle. reflexivity. }
  cbn [variables operators console shape order texture_shape]. rewrite insert_last.
  reflexivity.
Qed.

End primitives.

Section replace.

Context `{Externals}.

Variables (h : Heap) (o : OpId) (op : operator).
Variables (var_name : string) (v : VarId) (x : variable) (target : ChannelModeEnum).

Hypothesis Hop : operators h !! o = Some op.
Hypothesis Hx : variables h !! v = Some x.

Lemma input_of_ok :
  slot_get (inputs op) var_name = Some v -> input_of o var_name h = Ok (v, h).
Proof.
  intros Hv. unfold input_of. erewrite bind_ok by (apply read_op_ok; exact Hop).
  rewrite Hv. reflexivity.
Qed.

Lemma output_of_ok :
  slot_get (outputs op) var_name = Some v -> output_of o var_name h = Ok (v, h).
Proof.
  intros Hv. unfold output_of. erewrite bind_ok by (apply read_op_ok; exact Hop).
  rewrite Hv. reflexivity.
Qed.

Lemma replace_input_false :
  slot_get (inputs op) var_name = Some v ->
  mode_of x = target ->
  _replace_input o var_name target h = Ok (false, h).
Proof.
  intros Hv Hm. unfold _replace_input.
  erewrite bind_ok by (apply input_of_ok; exact Hv).
  erewrite bind_ok by (apply ChannelMode_get_ok; exact Hx).
  rewrite bool_decide_eq_true_2 by exact Hm. reflexivity.
Qed.

Lemma replace_input_true :
  slot_get (inputs op) var_name = Some v ->
  mode_of x <> target ->
  _replace_input o var_name target h = Ok (true, input_spliced h o op v x target).
Proof.
  intros Hv Hm. unfold _replace_input.
  pose proof (lookup_lt_Some _ _ _ Hop) as Holt.
  pose proof (lookup_lt_Some _ _ _ Hx) as Hvlt.
  erewrite bind_ok by (apply input_of_ok; exact Hv).
  erewrite bind_ok by (apply ChannelMode_get_ok; exact Hx).
  rewrite bool_decide_eq_false_2 by exact Hm.
  erewrite (bind_ok _ _ h (length (variables h))
              (mkHeap (variables h ++ [mkVariable (shape x) (order x) (Some target) None])
                 (operators h ++ [conversion_op (input_conversion target) v
                                    (length (variables h))])
                 (console h))); cycle 1.
  { destruct target; cbn [bool_decide decide_rel]; apply convert_eq; exact Hx. }
  assert (Hx1 : (variables h ++ [mkVariable (shape x) (order x) (Some target) None]) !! v
                = Some x) by (rewrite lookup_app_l by exact Hvlt; exact Hx).
  erewrite bind_ok by (apply TextureShape_get_ok; exact Hx1).
  erewrite bind_ok by (apply TextureShape_get_ok; exact Hx1).
  erewrite bind_ok; cycle 1.
  { apply TextureShape_set_ok. cbn [variables]. apply list_lookup_middle. reflexivity. }
  cbn [variables operators console shape order channel_mode]. rewrite insert_last.
  erewrite bind_ok; cycle 1.
  { apply replace_input_ok. cbn [operators]. rewrite lookup_app_l by exact Holt. exact Hop. }
  cbn [variables operators console]. rewrite insert_app_l by exact Holt.
  reflexivity.
Qed.

Lemma replace_output_false :
  slot_get (outputs op) var_name = Some v ->
  mode_of x = target ->
  _replace_output o var_name target h = Ok (false, h).
Proof.
  intros Hv Hm. unfold _replace_output.
  erewrite bind_ok by (apply output_of_ok; exact Hv).
  erewrite bind_ok by (apply ChannelMode_get_ok; exact Hx).
  rewrite bool_decide_eq_true_2 by exact Hm. reflexivity.
Qed.

Lemma replace_output_true :
  slot_get (outputs op) var_name = Some v ->
  mode_of x <> target ->
  _replace_output o var_name target h = Ok (true, output_spliced h o op v x target).
Proof.
  intros Hv Hm. unfold _replace_output.
  pose proof (lookup_lt_Some _ _ _ Hop) as Holt.
  pose proof (lookup_lt_Some _ _ _ Hx) as Hvlt.
  erewrite bind_ok by (apply output_of_ok; exact Hv).
  erewrite bind_ok by (apply ChannelMode_get_ok; exact Hx).
  rewrite bool_decide_eq_false_2 by exact Hm.
  erewrite bind_ok by (apply read_var_ok; exact Hx).
  erewrite bind_ok by reflexivity.
  erewrite bind_ok; cycle 1.
  { apply ChannelMode_set_ok. cbn [variables]. apply list_lookup_middle. reflexivity. }
  cbn [variables operators console shape order texture_shape]. rewrite insert_last.
  erewrite bind_ok by (apply replace_output_ok; exact Hop).
  cbn [variables operators console].
  set (vs1 := variables h ++ [mkVariable (shape x) (order x) (Some target) None]).
  set (os1 := <[o := with_outputs op (rebind v (length (variables h)) (outputs op))]>
                (operators h)).
  assert (Hnew : vs1 !! length (variables h)
                 = Some (mkVariable (shape x) (order x) (Some target) None))
    by (apply list_lookup_middle; reflexivity).
  assert (Hlen : length vs1 = S (length (variables h)))
    by (unfold vs1; rewrite length_app; cbn [length]; lia).
  erewrite (bind_ok _ _ _ tt (output_spliced h o op v x target)); [reflexivity|].
  assert (Hconv : forall cls,
            (let* c := convert cls (other_mode target) (length (variables h)) in
             let* x := read_var v in
             let* c := change_order c (order x) in
             Variable_replace c v) (mkHeap vs1 os1 (console h))
            = Ok (tt, mkHeap
                        (vs1 ++ [mkVariable
                                   ((fun a => default 1%Z (dict_zip (order x) (shape x) a))
                                      <$> order x)
                                   (order x) (Some (other_mode target)) None])
                        (rebind_op (length vs1) v
                           <$> (os1 ++ [conversion_op cls (length (variables h))
                                          (length vs1)]))
                        (console h))).
  { intros cls.
    erewrite bind_ok by (apply convert_eq; exact Hnew).
    cbn [variables operators console shape order].
    erewrite bind_ok; cycle 1.
    { apply read_var_ok. cbn [variables]. unfold vs1.
      rewrite !lookup_app_l; [exact Hx|exact Hvlt|rewrite length_app; lia]. }
    erewrite bind_ok; cycle 1.
    { apply (change_order_same _ (mkVariable (shape x) (order x)
                                    (Some (other_mode target)) None)).
      cbn [variables]. apply list_lookup_middle. reflexivity. }
    cbn [variables operators console shape order channel_mode texture_shape].
    rewrite insert_last. reflexivity. }
  unfold output_spliced. fold vs1 os1. rewrite <- Hlen.
  replace (variables h
           ++ [mkVariable (shape x) (order x) (Some target) None;
               mkVariable ((fun a => default 1%Z (dict_zip (order x) (shape x) a))
                             <$> order x) (order x) (Some (other_mode target)) None])
    with (vs1 ++ [mkVariable ((fun a => default 1%Z (dict_zip (order x) (shape x) a))
                                <$> order x) (order x) (Some (other_mode target)) None])
    by (unfold vs1; rewrite <- app_assoc; reflexivity).
  destruct target; cbn [bool_decide decide_rel]; apply Hconv.
Qed.

End replace.

Section outcomes.

Context `{Externals}.

Lemma input_conversion_is_conversion target : is_conversion (input_conversion target).
Proof. destruct target; [left|right]; reflexivity. Qed.

Lemma output_conversion_is_conversion target : is_conversion (output_conversion target).
Proof. destruct target; [right|left]; reflexivity. Qed.

Lemma evolves_input_spliced h o op v x target :
  operators h !! o = Some op -> evolves h (input_spliced h o op v x target).
Proof.
  intros Hop. pose proof (lookup_lt_Some _ _ _ Hop) as Holt.
  split; unfold input_spliced; cbn [variables operators console].
  - intros o' op' Hop'. pose proof (lookup_lt_Some _ _ _ Hop') as Hlt'.
    rewrite lookup_app_l by (rewrite length_insert; exact Hlt').
    destruct (decide (o = o')) as [<-|Hne].
    + rewrite list_lookup_insert_eq by exact Holt.
      rewrite Hop in Hop'. injection Hop' as <-.
      eexists. split; [reflexivity|]. cbn. rewrite rebind_fst. auto.
    + rewrite list_lookup_insert_ne by exact Hne. exists op'. auto.
  - intros u xu Hu. rewrite lookup_app_l by (eapply lookup_lt_Some; exact Hu). exact Hu.
  - intros o' op' Hnone Hsome. apply lookup_ge_None_1 in Hnone.
    rewrite lookup_app_r in Hsome by (rewrite length_insert; exact Hnone).
    rewrite length_insert in Hsome.
    destruct (o' - length (operators h)) as [|k]; [|discriminate].
    cbn in Hsome. injection Hsome as <-. apply input_conversion_is_conversion.
  - reflexivity.
Qed.

Lemma evolves_output_spliced h o op v x target :
  operators h !! o = Some op -> evolves h (output_spliced h o op v x target).
Proof.
  intros Hop. pose proof (lookup_lt_Some _ _ _ Hop) as Holt.
  split; unfold output_spliced; cbn [variables operators console].
  - intros o' op' Hop'. pose proof (lookup_lt_Some _ _ _ Hop') as Hlt'.
    rewrite list_lookup_fmap.
    rewrite lookup_app_l by (rewrite length_insert; exact Hlt').
    destruct (decide (o = o')) as [<-|Hne].
    + rewrite list_lookup_insert_eq by exact Holt.
      rewrite Hop in Hop'. injection Hop' as <-.
      eexists. split; [reflexivity|].
      cbn [op_class inputs outputs rebind_op with_outputs]. rewrite !rebind_fst. auto.
    + rewrite list_lookup_insert_ne by exact Hne. rewrite Hop'.
      eexists. split; [reflexivity|].
      cbn [op_class inputs outputs rebind_op with_outputs]. rewrite !rebind_fst. auto.
  - intros u xu Hu. rewrite lookup_app_l by (eapply lookup_lt_Some; exact Hu). exact Hu.
  - intros o' op' Hnone Hsome. apply lookup_ge_None_1 in Hnone.
    rewrite list_lookup_fmap in Hsome.
    rewrite lookup_app_r in Hsome by (rewrite length_insert; exact Hnone).
    rewrite length_insert in Hsome.
    destruct (o' - length (operators h)) as [|k]; [|discriminate].
    cbn in Hsome. injection Hsome as <-. apply output_conversion_is_conversion.
  - reflexivity.
Qed.

Lemma length_input_spliced h o op v x target :
  length (operators (input_spliced h o op v x target)) = S (length (operators h)).
Proof.
  unfold input_spliced. cbn [operators].
  rewrite length_app, length_insert. cbn [length]. lia.
Qed.

Lemma length_output_spliced h o op v x target :
  length (operators (output_spliced h o op v x target)) = S (length (operators h)).
Proof.
  unfold output_spliced. cbn [operators].
  rewrite length_fmap, length_app, length_insert. cbn [length]. lia.
Qed.

Lemma replace_input_outcome o var_name target h :
  outcome h (_replace_input o var_name target h).
Proof.
  destruct (operators h !! o) as [op|] eqn:Hop; cycle 1.
  { unfold _replace_input, input_of, bind, read_op. rewrite Hop. exact I. }
  destruct (slot_get (inputs op) var_name) as [v|] eqn:Hv; cycle 1.
  { unfold _replace_input, input_of, bind, read_op. rewrite Hop, Hv. exact I. }
  destruct (variables h !! v) as [x|] eqn:Hx; cycle 1.
  { unfold _replace_input. erewrite bind_ok by (eapply input_of_ok; eassumption).
    unfold ChannelMode.get, bind, read_var. rewrite Hx. exact I. }
  destruct (decide (mode_of x = target)) as [Hm|Hm].
  - erewrite replace_input_false by eassumption. reflexivity.
  - erewrite replace_input_true by eassumption. split.
    + apply evolves_input_spliced. exact Hop.
    + rewrite length_input_spliced. lia.
Qed.

Lemma replace_output_outcome o var_name target h :
  outcome h (_replace_output o var_name target h).
Proof.
  destruct (operators h !! o) as [op|] eqn:Hop; cycle 1.
  { unfold _replace_output, output_of, bind, read_op. rewrite Hop. exact I. }
  destruct (slot_get (outputs op) var_name) as [v|] eqn:Hv; cycle 1.
  { unfold _replace_output, output_of, bind, read_op. rewrite Hop, Hv. exact I. }
  destruct (variables h !! v) as [x|] eqn:Hx; cycle 1.
  { unfold _replace_output. erewrite bind_ok by (eapply output_of_ok; eassumption).
    unfold ChannelMode.get, bind, read_var. rewrite Hx. exact I. }
  destruct (decide (mode_of x = target)) as [Hm|Hm].
  - erewrite replace_output_false by eassumption. reflexivity.
  - erewrite replace_output_true by eassumption. split.
    + apply evolves_output_spliced. exact Hop.
    + rewrite length_output_spliced. lia.
Qed.

Lemma any_of_outcome {A} (xs : list A) (f : A -> M bool) h :
  (forall x, outcome h (f x h)) -> outcome h (any_of xs f h).
Proof.
  intros Hf. induction xs as [|x xs IH]; [reflexivity|].
  cbn [any_of]. unfold bind. specialize (Hf x).
  destruct (f x h) as [[[] h1]|e]; cbn in *.
  - exact Hf.
  - subst h1. exact IH.
  - exact I.
Qed.

Lemma replace_input_all_outcome o target h :
  outcome h (_replace_input_all o target h).
Proof.
  unfold _replace_input_all, bind, read_op.
  destruct (operators h !! o) as [op|]; [|exact I].
  apply any_of_outcome. intros var_name. apply replace_input_outcome.
Qed.

Lemma replace_output_all_outcome o target h :
  outcome h (_replace_output_all o target h).
Proof.
  unfold _replace_output_all, bind, read_op.
  destruct (operators h !! o) as [op|]; [|exact I].
  apply any_of_outcome. intros var_name. apply replace_output_outcome.
Qed.

(** Two calls in a row whose flags are or-ed into [flag_changed]. *)
Lemma or_outcome (m1 m2 : M bool) flag_changed h :
  (forall h1, outcome h1 (m1 h1)) ->
  (forall h1, outcome h1 (m2 h1)) ->
  match (let* b := m1 in
         let flag_changed := flag_changed || b in
         let* b := m2 in
         ret (flag_changed || b)) h with
  | Raise _ => True
  | Ok (flag, h') =>
      (flag = flag_changed /\ h' = h)
      \/ (flag = true /\ evolves h h' /\ length (operators h) < length (operators h'))
  end.
Proof.
  intros H1 H2. unfold bind. specialize (H1 h).
  destruct (m1 h) as [[b1 h1]|e]; [|exact I].
  specialize (H2 h1). destruct (m2 h1) as [[b2 h2]|e]; [|exact I].
  unfold ret. destruct b1, b2; cbn in H1, H2.
  - right. destruct H1 as [E1 L1], H2 as [E2 L2].
    rewrite !orb_true_r.
    split; [reflexivity|split; [eapply evolves_trans; eassumption|lia]].
  - right. subst h2. rewrite orb_true_r. cbn. tauto.
  - right. subst h1. rewrite orb_true_r. tauto.
  - left. subst. rewrite !orb_false_r. auto.
Qed.

Lemma optimize_body_outcome flag_changed o h :
  match optimize_body flag_changed o h with
  | Raise _ => True
  | Ok (flag, h') =>
      (flag = flag_changed /\ h' = h)
      \/ (flag = true /\ evolves h h' /\ length (operators h) < length (operators h'))
  end.
Proof.
  unfold optimize_body. unfold bind at 1. unfold read_op.
  destruct (operators h !! o) as [op|]; [|exact I].
  destruct (op_class op);
    first [ left; split; reflexivity
          | apply or_outcome; intros h1;
            first [ apply replace_input_outcome | apply replace_output_outcome
                  | apply replace_input_all_outcome | apply replace_output_all_outcome ] ].
Qed.

Lemma optimize_loop_outcome ops : forall flag_changed h,
  match optimize_loop flag_changed ops h with
  | Raise _ => True
  | Ok (flag, h') =>
      (flag = flag_changed /\ h' = h)
      \/ (flag = true /\ evolves h h' /\ length (operators h) < length (operators h'))
  end.
Proof.
  induction ops as [|o ops IH]; intros flag_changed h.
  - left. split; reflexivity.
  - cbn [optimize_loop]. unfold bind.
    pose proof (optimize_body_outcome flag_changed o h) as Hb.
    destruct (optimize_body flag_changed o h) as [[flag1 h1]|e]; [|exact I].
    specialize (IH flag1 h1).
    destruct (optimize_loop flag1 ops h1) as [[flag2 h2]|e]; [|exact I].
    destruct Hb as [[-> ->]|(-> & E1 & L1)]; [exact IH|].
    right. destruct IH as [[-> ->]|(-> & E2 & L2)].
    + auto.
    + split; [reflexivity|split; [eapply evolves_trans; eassumption|lia]].
Qed.

End outcomes.

Section fixed_point.

Context `{Externals}.

Lemma slot_has_mode_true h d name target :
  slot_has_mode h d name target = true ->
  exists v x, slot_get d name = Some v /\ variables h !! v = Some x /\ mode_of x = target.
Proof.
  unfold slot_has_mode. intros Hb. apply bool_decide_eq_true in Hb.
  destruct (slot_get d name) as [v|]; [|discriminate]. cbn in Hb.
  destruct (variables h !! v) as [x|] eqn:Hx; [|discriminate]. cbn in Hb.
  injection Hb as Hb. exists v, x. auto.
Qed.

Lemma slot_has_mode_intro h d name target v x :
  slot_get d name = Some v -> variables h !! v = Some x ->
  slot_has_mode h d name target = bool_decide (mode_of x = target).
Proof.
  intros Hv Hx. unfold slot_has_mode. rewrite Hv. cbn. rewrite Hx. cbn.
  apply bool_decide_ext. split; [intros [= ->]; reflexivity|intros ->; reflexivity].
Qed.

Lemma any_of_input_settled h o op target names :
  operators h !! o = Some op ->
  forallb (fun name => slot_has_mode h (inputs op) name target) names = true ->
  any_of names (fun var_name => _replace_input o var_name target) h = Ok (false, h).
Proof.
  intros Hop. induction names as [|name names IH]; [reflexivity|].
  cbn [forallb any_of]. intros Hb. apply andb_true_iff in Hb. destruct Hb as [Hb Hbs].
  apply slot_has_mode_true in Hb. destruct Hb as (v & x & Hv & Hx & Hm).
  erewrite bind_ok by (eapply replace_input_false; eassumption).
  apply IH. exact Hbs.
Qed.

Lemma any_of_output_settled h o op target names :
  operators h !! o = Some op ->
  forallb (fun name => slot_has_mode h (outputs op) name target) names = true ->
  any_of names (fun var_name => _replace_output o var_name target) h = Ok (false, h).
Proof.
  intros Hop. induction names as [|name names IH]; [reflexivity|].
  cbn [forallb any_of]. intros Hb. apply andb_true_iff in Hb. destruct Hb as [Hb Hbs].
  apply slot_has_mode_true in Hb. destruct Hb as (v & x & Hv & Hx & Hm).
  erewrite bind_ok by (eapply replace_output_false; eassumption).
  apply IH. exact Hbs.
Qed.

Lemma replace_input_all_settled h o op target :
  operators h !! o = Some op ->
  all_slots_have_mode h (inputs op) target = true ->
  _replace_input_all o target h = Ok (false, h).
Proof.
  intros Hop Hall. unfold _replace_input_all.
  erewrite bind_ok by (apply read_op_ok; exact Hop).
  eapply any_of_input_settled; eassumption.
Qed.

Lemma replace_output_all_settled h o op target :
  operators h !! o = Some op ->
  all_slots_have_mode h (outputs op) target = true ->
  _replace_output_all o target h = Ok (false, h).
Proof.
  intros Hop Hall. unfold _replace_output_all.
  erewrite bind_ok by (apply read_op_ok; exact Hop).
  eapply any_of_output_settled; eassumption.
Qed.

Lemma optimize_body_settled flag_changed h o :
  settled h o = true -> optimize_body flag_changed o h = Ok (flag_changed, h).
Proof.
  unfold settled, optimize_body. destruct (operators h !! o) as [op|] eqn:Hop;
    [|discriminate].
  erewrite bind_ok by (apply read_op_ok; exact Hop).
  assert (Hconv : forall tin tout,
            slot_has_mode h (inputs op) "x0" tin && slot_has_mode h (outputs op) "y" tout
            = true ->
            (let* b := _replace_input o "x0" tin in
             let flag_changed := flag_changed || b in
             let* b := _replace_output o "y" tout in
             ret (flag_changed || b)) h = Ok (flag_changed, h)).
  { intros tin tout Hb. apply andb_true_iff in Hb. destruct Hb as [Hi Ho].
    apply slot_has_mode_true in Hi, Ho.
    destruct Hi as (vi & xi & Hvi & Hxi & Hmi), Ho as (vo & xo & Hvo & Hxo & Hmo).
    erewrite bind_ok by (apply (replace_input_false h o op "x0" vi xi tin); assumption).
    erewrite bind_ok by (apply (replace_output_false h o op "y" vo xo tout); assumption).
    unfold ret. rewrite !orb_false_r. reflexivity. }
  assert (Hall : all_slots_have_mode h (inputs op) R && all_slots_have_mode h (outputs op) R
                 = true ->
            (let* b := _replace_input_all o R in
             let flag_changed := flag_changed || b in
             let* b := _replace_output_all o R in
             ret (flag_changed || b)) h = Ok (flag_changed, h)).
  { intros Hb. apply andb_true_iff in Hb. destruct Hb as [Hi Ho].
    erewrite bind_ok by (eapply replace_input_all_settled; eassumption).
    erewrite bind_ok by (eapply replace_output_all_settled; eassumption).
    unfold ret. rewrite !orb_false_r. reflexivity. }
  destruct (op_class op); intros Hs;
    first [reflexivity | apply Hconv; exact Hs | apply Hall; exact Hs].
Qed.

Lemma optimize_loop_settled h ops : forall flag_changed,
  forallb (settled h) ops = true ->
  optimize_loop flag_changed ops h = Ok (flag_changed, h).
Proof.
  induction ops as [|o ops IH]; intros flag_changed Hb; [reflexivity|].
  cbn [forallb] in Hb. apply andb_true_iff in Hb. destruct Hb as [Ho Hb].
  cbn [optimize_loop].
  erewrite bind_ok by (apply optimize_body_settled; exact Ho).
  apply IH. exact Hb.
Qed.

(** C8: [optimize] returns the graph it was given; it reports no change
    exactly when it leaves the store as it was, which is exactly when the
    store has gained no operator, and every operator it adds is a conversion.
    On a store in which every listed operator already carries its required
    modes, [optimize] returns without a change and reports none. *)
Theorem optimize_changed_iff_conversion_inserted graph h :
  (forall g flag h',
     optimize graph h = Ok ((g, flag), h') ->
     g = graph
     /\ (flag = false <-> h' = h)
     /\ (flag = false <-> length (operators h') = length (operators h))
     /\ evolves h h')
  /\ (forallb (settled h) (listup_operators graph h) = true ->
      optimize graph h = Ok ((graph, false), h)).
Proof.
  split.
  - intros g flag h' Hrun. unfold optimize in Hrun.
    erewrite bind_ok in Hrun by reflexivity.
    pose proof (optimize_loop_outcome (listup_operators graph h) false h) as Hl.
    unfold bind in Hrun.
    destruct (optimize_loop false (listup_operators graph h) h) as [[fl h1]|e];
      [|discriminate].
    injection Hrun as <- <- <-.
    destruct Hl as [[-> ->]|(-> & He & Hlt)].
    + split; [reflexivity|]. split; [tauto|]. split; [tauto|]. apply evolves_refl.
    + split; [reflexivity|].
      split; [split; [discriminate|intros ->; lia]|].
      split; [split; [discriminate|lia]|exact He].
  - intros Hs. unfold optimize.
    erewrite bind_ok by reflexivity.
    erewrite bind_ok by (apply optimize_loop_settled; exact Hs).
    reflexivity.
Qed.

End fixed_point.

Section splice.

Context `{Externals}.

Lemma rebind_op_fresh a b op :
  Forall (fun kv => kv.2 <> a) (inputs op) ->
  Forall (fun kv => kv.2 <> a) (outputs op) ->
  rebind_op a b op = op.
Proof.
  intros Hi Ho. destruct op as [cls name ps ins outs attrs]. unfold rebind_op.
  cbn [op_class op_name parameters inputs outputs attributes] in *.
  rewrite (rebind_fresh _ _ _ Hi), (rebind_fresh _ _ _ Ho). reflexivity.
Qed.

Lemma slots_below h op :
  slots_bound h op ->
  Forall (fun kv : string * VarId => kv.2 < length (variables h)) (inputs op)
  /\ Forall (fun kv : string * VarId => kv.2 < length (variables h)) (outputs op).
Proof.
  intros Hb. split; apply Forall_forall; intros [k u] Hin; cbn; apply (Hb k u); auto.
Qed.

Lemma no_dangling_slots_bound h o op :
  no_dangling h -> operators h !! o = Some op -> slots_bound h op.
Proof. intros Hnd Hop name v Hin. eapply Hnd; eassumption. Qed.

Lemma rebind_below a b n d :
  Forall (fun kv : string * VarId => kv.2 < n) d -> b < S n ->
  Forall (fun kv : string * VarId => kv.2 < S n) (rebind a b d).
Proof.
  intros Hd Hb. unfold rebind. apply Forall_fmap. eapply Forall_impl; [exact Hd|].
  intros [k u] Hu. cbn in *. destruct (decide (u = a)); lia.
Qed.

Lemma Forall_below_ne n (d : list (string * VarId)) :
  Forall (fun kv => kv.2 < n) d -> Forall (fun kv => kv.2 <> n) d.
Proof. intros Hd. eapply Forall_impl; [exact Hd|]. intros [k u] Hu. cbn in *. lia. Qed.

Lemma Forall_below_S_ne n (d : list (string * VarId)) :
  Forall (fun kv => kv.2 < n) d -> Forall (fun kv => kv.2 <> S n) d.
Proof. intros Hd. eapply Forall_impl; [exact Hd|]. intros [k u] Hu. cbn in *. lia. Qed.

(** The operators of the store after a splice behind an output slot, once the
    rebinding of the discarded conversion output is simplified. *)
Lemma output_spliced_operators h o op v x target :
  no_dangling h ->
  operators h !! o = Some op ->
  operators (output_spliced h o op v x target)
  = <[o := with_outputs op (rebind v (length (variables h)) (outputs op))]> (operators h)
    ++ [conversion_op (output_conversion target) (length (variables h)) v].
Proof.
  intros Hnd Hop. unfold output_spliced. cbn [operators].
  rewrite fmap_app. f_equal.
  - apply list_eq. intros i. rewrite list_lookup_fmap.
    destruct (<[o := with_outputs op (rebind v (length (variables h)) (outputs op))]>
                (operators h) !! i) as [op1|] eqn:Hi; [|reflexivity].
    cbn. f_equal.
    destruct (slots_below h op (no_dangling_slots_bound h o op Hnd Hop)) as [Hins Houts].
    apply list_lookup_insert_Some in Hi.
    destruct Hi as [(-> & <- & _)|(_ & Hi)].
    + apply rebind_op_fresh; cbn [inputs outputs with_outputs].
      * apply Forall_below_S_ne. exact Hins.
      * apply Forall_below_ne. apply rebind_below; [exact Houts|lia].
    + destruct (slots_below h op1 (no_dangling_slots_bound h i op1 Hnd Hi)) as [Hins1 Houts1].
      apply rebind_op_fresh; apply Forall_below_S_ne; assumption.
  - cbn. unfold rebind_op, conversion_op, rebind. cbn.
    rewrite decide_False by lia. rewrite decide_True by reflexivity. reflexivity.
Qed.

(** C7: a splice behind an output slot leaves every variable of the store,
    the original output among them, as it was; the operator now writes a new
    variable with the shape and Order of the original and the required mode;
    a new conversion operator reads the new variable and writes the original;
    and every other operator, so every consumer of the original, is left as
    it was. *)
Theorem replace_output_keeps_original h o op var_name v x target :
  no_dangling h ->
  operators h !! o = Some op ->
  slot_get (outputs op) var_name = Some v ->
  variables h !! v = Some x ->
  mode_of x <> target ->
  exists h' op' x_new,
    _replace_output o var_name target h = Ok (true, h')
    /\ (forall u xu, variables h !! u = Some xu -> variables h' !! u = Some xu)
    /\ variables h' !! v = Some x
    /\ variables h !! length (variables h) = None
    /\ variables h' !! length (variables h) = Some x_new
    /\ shape x_new = shape x
    /\ order x_new = order x
    /\ channel_mode x_new = Some target
    /\ operators h' !! o = Some op'
    /\ op_class op' = op_class op
    /\ inputs op' = inputs op
    /\ outputs op' = rebind v (length (variables h)) (outputs op)
    /\ slot_get (outputs op') var_name = Some (length (variables h))
    /\ operators h !! length (operators h) = None
    /\ operators h' !! length (operators h)
       = Some (conversion_op (output_conversion target) (length (variables h)) v)
    /\ (forall o' op'', o' <> o -> operators h !! o' = Some op'' ->
        operators h' !! o' = Some op'').
Proof.
  intros Hnd Hop Hv Hx Hm.
  pose proof (lookup_lt_Some _ _ _ Hop) as Holt.
  exists (output_spliced h o op v x target),
    (with_outputs op (rebind v (length (variables h)) (outputs op))),
    (mkVariable (shape x) (order x) (Some target) None).
  split; [apply (replace_output_true h o op var_name v x target); assumption|].
  rewrite (output_spliced_operators h o op v x target Hnd Hop).
  assert (Hvars : forall u xu, variables h !! u = Some xu ->
                    variables (output_spliced h o op v x target) !! u = Some xu).
  { intros u xu Hu. unfold output_spliced. cbn [variables].
    rewrite lookup_app_l by (eapply lookup_lt_Some; exact Hu). exact Hu. }
  split; [exact Hvars|].
  split; [apply Hvars; exact Hx|].
  split; [apply lookup_ge_None_2; lia|].
  split; [unfold output_spliced; cbn [variables]; apply list_lookup_middle; reflexivity|].
  do 3 (split; [reflexivity|]).
  split.
  { rewrite lookup_app_l by (rewrite length_insert; exact Holt).
    apply list_lookup_insert_eq. exact Holt. }
  do 3 (split; [reflexivity|]).
  split.
  { cbn [with_outputs outputs]. rewrite slot_get_rebind, Hv. cbn.
    rewrite decide_True by reflexivity. reflexivity. }
  split; [apply lookup_ge_None_2; lia|].
  split.
  { apply list_lookup_middle. rewrite length_insert. reflexivity. }
  intros o' op'' Hne Hop''.
  rewrite lookup_app_l by (rewrite length_insert; eapply lookup_lt_Some; exact Hop'').
  rewrite list_lookup_insert_ne by (intros ->; apply Hne; reflexivity). exact Hop''.
Qed.

End splice.

Section posts.

Context `{Externals}.




Lemma elem_of_rebind a b d k u :
  (k, u) ∈ rebind a b d -> u = b \/ (k, u) ∈ d.
Proof.
  unfold rebind. intros Hin. apply list_elem_of_fmap in Hin.
  destruct Hin as ([k' u'] & Heq & Hin). cbn in Heq. injection Heq as -> ->.
  destruct (decide (u' = a)) as [->|]; [left; reflexivity|right; exact Hin].
Qed.



Lemma slot_bound_lookup h op name v :
  slots_bound h op ->
  slot_get (inputs op) name = Some v \/ slot_get (outputs op) name = Some v ->
  exists x, variables h !! v = Some x.
Proof.
  intros Hb Hv. apply lookup_lt_is_Some_2. apply (Hb name v).
  destruct Hv as [Hv|Hv]; [left|right]; apply slot_get_elem; exact Hv.
Qed.












End posts.

(** ** The pass on concrete graphs *)

Lemma slots_bound_intro h op :
  forallb (fun kv : string * VarId => bool_decide (kv.2 < length (variables h)))
    (inputs op ++ outputs op) = true ->
  slots_bound h op.
Proof.
  intros Hb name v Hin. rewrite forallb_forall in Hb.
  assert (Hin' : (name, v) ∈ inputs op ++ outputs op)
    by (apply elem_of_app; exact Hin).
  apply list_elem_of_In in Hin'. specialize (Hb _ Hin').
  apply bool_decide_eq_true in Hb. exact Hb.
Qed.

Lemma no_dangling_intro h :
  forallb (fun op =>
             forallb (fun kv : string * VarId => bool_decide (kv.2 < length (variables h)))
               (inputs op ++ outputs op)) (operators h) = true ->
  no_dangling h.
Proof.
  intros Hb o op name v Hop Hin. rewrite forallb_forall in Hb.
  refine (slots_bound_intro h op _ name v Hin).
  apply Hb. apply list_elem_of_In. eapply list_elem_of_lookup_2. exact Hop.
Qed.

Lemma optimize_changed_iff_conversion_inserted_witness :
  (true = false <-> heap_rgba_producer_converted = heap_rgba_producer)
  /\ optimize (H := example_externals) graph_rgba_producer heap_rgba_producer_converted
     = Ok ((graph_rgba_producer, false), heap_rgba_producer_converted).
Proof.
  split.
  - apply (proj1 (optimize_changed_iff_conversion_inserted (H := example_externals)
                    graph_rgba_producer heap_rgba_producer)
             graph_rgba_producer true heap_rgba_producer_converted).
    vm_compute. reflexivity.
  - apply (proj2 (optimize_changed_iff_conversion_inserted (H := example_externals)
                    graph_rgba_producer heap_rgba_producer_converted)).
    vm_compute. reflexivity.
Defined.

Lemma replace_output_keeps_original_witness :
  exists h' op' x_new,
    _replace_output (H := example_externals) 0 "y" R heap_rgba_output = Ok (true, h')
    /\ (forall u xu, variables heap_rgba_output !! u = Some xu ->
        variables h' !! u = Some xu)
    /\ variables h' !! 1
       = Some (mkVariable [2; 3]%Z [Axis.N; Axis.C] (Some RGBA) (Some (4, 8)%Z))
    /\ variables heap_rgba_output !! 3 = None
    /\ variables h' !! 3 = Some x_new
    /\ shape x_new = [2; 3]%Z
    /\ order x_new = [Axis.N; Axis.C]
    /\ channel_mode x_new = Some R
    /\ operators h' !! 0 = Some op'
    /\ op_class op' = OtherOperator "Relu"
    /\ inputs op' = [("x0", 0)]
    /\ outputs op' = [("y", 3)]
    /\ slot_get (outputs op') "y" = Some 3
    /\ operators heap_rgba_output !! 2 = None
    /\ operators h' !! 2 = Some (conversion_op ConvertRtoRGBA 3 1)
    /\ (forall o' op'', o' <> 0 -> operators heap_rgba_output !! o' = Some op'' ->
        operators h' !! o' = Some op'').
Proof.
  apply (replace_output_keeps_original (H := example_externals) heap_rgba_output 0
           (mkOperator (OtherOperator "Relu") None ∅ [("x0", 0)] [("y", 1)] [])
           "y" 1 (mkVariable [2; 3]%Z [Axis.N; Axis.C] (Some RGBA) (Some (4, 8)%Z)) R).
  - apply no_dangling_intro. reflexivity.
  - reflexivity.
  - reflexivity.
  - reflexivity.
  - discriminate.
Defined.

(** C2 on the addition with two RGBA inputs: one invocation of [optimize]
    splices a conversion before slot "x0" only; slot "x1" still holds its
    RGBA variable, which no conversion operator reads. *)
Theorem optimize_leaves_second_input_unconverted :
  exists h',
    optimize (H := example_externals) graph_two_rgba_inputs heap_two_rgba_inputs
    = Ok ((graph_two_rgba_inputs, true), h')
    /\ inputs <$> operators h' !! 0 = Some [("x0", 3); ("x1", 1)]
    /\ channel_mode <$> variables h' !! 1 = Some (Some RGBA)
    /\ slot_has_mode (H := example_externals) h' [("x0", 3); ("x1", 1)] "x1" R = false
    /\ (fun op => (op_class op, inputs op, outputs op)) <$> operators h'
       = [(OtherOperator "ElementwiseAdd", [("x0", 3); ("x1", 1)], [("y", 2)]);
          (ConvertRGBAtoR, [("x0", 0)], [("y", 3)])].
Proof.
  eexists. split; [vm_compute; reflexivity|].
  repeat split; vm_compute; reflexivity.
Qed.

(** C3 on the Relu with an RGBA output: the new intermediate variable that
    [optimize] makes the Relu write has no texture shape, while the original
    output keeps its 4 by 8 texture. *)
Theorem optimize_output_splice_drops_texture_shape :
  exists h',
    optimize (H := example_externals) graph_rgba_output heap_rgba_output
    = Ok ((graph_rgba_output, true), h')
    /\ outputs <$> operators h' !! 0 = Some [("y", 3)]
    /\ (fun op => (op_class op, inputs op, outputs op)) <$> operators h' !! 2
       = Some (ConvertRtoRGBA, [("x0", 3)], [("y", 1)])
    /\ texture_shape <$> variables h' !! 1 = Some (Some (4, 8)%Z)
    /\ texture_shape <$> variables h' !! 3 = Some None
    /\ TextureShape.get (H := example_externals) 1 h' = Ok ((4, 8)%Z, h')
    /\ TextureShape.get (H := example_externals) 3 h' = Ok ((1, 1)%Z, h').
Proof.
  eexists. split; [vm_compute; reflexivity|].
  repeat split; vm_compute; reflexivity.
Qed.

End ChannelModeSpec.

(** ** The WebAssembly rule group *)

Module WebassemblySpec.
Import WebassemblyOptimizeRule.

Lemma sub_rules_short DEBUG i r : __init__ DEBUG !! i = Some r -> i < 14.
Proof.
  intros Hi. apply lookup_lt_Some in Hi. destruct DEBUG; cbn in Hi; lia.
Qed.

Ltac enumerate_from n i Hi :=
  lazymatch n with
  | 0 => apply sub_rules_short in Hi; exfalso; lia
  | S ?m =>
      destruct i as [|i];
      [cbn in Hi; try discriminate Hi; try (injection Hi as <-)
      |enumerate_from m i Hi]
  end.

Tactic Notation "enumerate" ident(i) hyp(Hi) := enumerate_from 14 i Hi.

(** C9: in the list of sub-rules every fusion rule stands before
    UpdateInplaceAttribute, InsertTranspose stands before every fusion rule,
    and a DumpGraph rule is in the list, as its last element, exactly when
    the debug flag is set; the rules named here do occur in the list. *)
Theorem sub_rules_order DEBUG :
  (forall i j r,
     __init__ DEBUG !! i = Some r -> is_fusion r = true ->
     __init__ DEBUG !! j = Some UpdateInplaceAttribute -> i < j)
  /\ (forall i j r,
        __init__ DEBUG !! i = Some InsertTranspose ->
        __init__ DEBUG !! j = Some r -> is_fusion r = true -> i < j)
  /\ ((exists i r, __init__ DEBUG !! i = Some r /\ is_dump r = true) <-> DEBUG = true)
  /\ (DEBUG = true -> last (__init__ DEBUG) = Some (DumpGraph "cg{count}.dot"))
  /\ (forall i r,
        __init__ DEBUG !! i = Some r -> is_dump r = true ->
        S i = length (__init__ DEBUG))
  /\ InsertTranspose ∈ __init__ DEBUG
  /\ MergeSgemmAndElementwiseMul ∈ __init__ DEBUG
  /\ ElementwiseKernelFusion ∈ __init__ DEBUG
  /\ UpdateInplaceAttribute ∈ __init__ DEBUG.
Proof.
  split; [|split; [|split; [|split; [|split]]]].
  - intros i j r Hi Hf Hj.
    destruct DEBUG; enumerate i Hi; try discriminate Hf;
      enumerate j Hj; lia.
  - intros i j r Hi Hj Hf.
    destruct DEBUG; enumerate i Hi; enumerate j Hj; try discriminate Hf; lia.
  - split.
    + intros (i & r & Hi & Hd). destruct DEBUG; [reflexivity|].
      enumerate i Hi; discriminate Hd.
    + intros ->. exists 13, (DumpGraph "cg{count}.dot"). split; reflexivity.
  - intros ->. reflexivity.
  - intros i r Hi Hd.
    destruct DEBUG; enumerate i Hi; try discriminate Hd; reflexivity.
  - destruct DEBUG; cbn; repeat split; set_solver.
Qed.

Lemma sub_rules_order_witness : 11 < 12 /\ 0 < 2.
Proof.
  split.
  - apply (proj1 (sub_rules_order false) 11 12 ElementwiseKernelFusion); reflexivity.
  - apply (proj1 (proj2 (sub_rules_order true)) 0 2 MergeSgemmAndElementwiseMul);
      reflexivity.
Defined.

End WebassemblySpec.

(** * Further properties *)

(** ** Pooling2D: errors, composition with the constructor, window cover *)

Module Pooling2DExtra.
Import Pooling2D Pooling2DSpec.

Lemma floordiv_zero a h : floordiv a 0 h = Raise ZeroDivisionError.
Proof. reflexivity. Qed.

Ltac run_ok Hop :=
  repeat (first [ erewrite (bind_ok (getitem (Some _))) by reflexivity
                | erewrite (bind_ok (parameter _ _)) by
                    (eapply parameter_ok; [exact Hop|eassumption])
                | erewrite (bind_ok (floordiv _ _)) by (apply floordiv_ok; assumption) ]).

Section call_site.

Variables (h : Heap) (self : OpId) (op : operator) (x : VarId) (xv : variable).
Variables (ksize stride padding : Z * Z).

Hypothesis Hop : operators h !! self = Some op.
Hypothesis Hx : slot_get (inputs op) "x" = Some x.
Hypothesis Hxv : variables h !! x = Some xv.
Hypothesis Hksize : parameters op !! "ksize" = Some ksize.
Hypothesis Hstride : parameters op !! "stride" = Some stride.
Hypothesis Hpadding : parameters op !! "padding" = Some padding.

(** What [exec] returns at a call site, by the order of its reads and
    divisions. *)
Lemma exec_cases :
  exec self h
  = match shape_dict xv Axis.N with
    | None => Raise KeyError
    | Some n =>
        match shape_dict xv Axis.H with
        | None => Raise KeyError
        | Some xh =>
            if decide (stride.1 = 0%Z) then Raise ZeroDivisionError
            else
              match shape_dict xv Axis.W with
              | None => Raise KeyError
              | Some xw =>
                  if decide (stride.2 = 0%Z) then Raise ZeroDivisionError
                  else
                    match shape_dict xv Axis.C with
                    | None => Raise KeyError
                    | Some c =>
                        Ok (length (variables h),
                            heap_out h self op xv n xh xw c ksize stride padding)
                    end
              end
        end
    end.
Proof.
  destruct (shape_dict xv Axis.N) as [n|] eqn:HN;
    [destruct (shape_dict xv Axis.H) as [xh|] eqn:HH;
     [destruct (decide (stride.1 = 0%Z)) as [Hs0|Hs0];
      [|destruct (shape_dict xv Axis.W) as [xw|] eqn:HW;
        [destruct (decide (stride.2 = 0%Z)) as [Hs1|Hs1];
         [|destruct (shape_dict xv Axis.C) as [c|] eqn:HC]|]]|]|].
  all: try (eapply exec_eq; eassumption).
  all: unfold exec;
    (erewrite bind_ok by
       (unfold input_of; erewrite bind_ok by (apply read_op_ok; exact Hop);
        rewrite Hx; reflexivity));
    (erewrite bind_ok by (apply read_var_ok; exact Hxv));
    rewrite ?HN, ?HH, ?HW, ?HC; run_ok Hop;
    try rewrite Hs0; try rewrite Hs1; reflexivity.
Qed.

End call_site.

(** [__call__] binds the input and runs [exec] on the store so changed. *)
Lemma call_eq h self op x :
  operators h !! self = Some op ->
  __call__ self x h
  = exec self (mkHeap (variables h)
                 (<[self := with_inputs op (slot_set (inputs op) "x" x)]> (operators h))
                 (console h)).
Proof.
  intros Hop. unfold __call__.
  erewrite bind_ok by (apply ChannelModeSpec.append_input_ok; exact Hop).
  reflexivity.
Qed.

(** The constructor followed by the call, when the constructor accepts. *)
Lemma init_call_eq name ksize stride padding x h :
  ((to_tuple ksize).1 >= (to_tuple stride).1)%Z ->
  ((to_tuple ksize).2 >= (to_tuple stride).2)%Z ->
  (let* self := __init__ name ksize stride padding in __call__ self x) h
  = exec (length (operators h))
      (mkHeap (variables h)
         (operators h ++ [with_inputs (init_op name ksize stride padding) [("x", x)]])
         (console h)).
Proof.
  intros H0 H1.
  erewrite bind_ok; cycle 1.
  { rewrite init_eq, !bool_decide_eq_true_2 by assumption. reflexivity. }
  erewrite call_eq; cycle 1.
  { cbn [operators]. apply list_lookup_middle. reflexivity. }
  cbn [variables operators console]. rewrite ChannelModeSpec.insert_last. reflexivity.
Qed.

(** X2: the constructor accepts a zero stride, since it only asks for
    ksize >= stride, and the call on an input with the axes N, H and W then
    raises ZeroDivisionError. *)
Theorem zero_stride_constructed_then_call_raises name ksize stride padding x xv h :
  ((to_tuple ksize).1 >= (to_tuple stride).1)%Z ->
  ((to_tuple ksize).2 >= (to_tuple stride).2)%Z ->
  (to_tuple stride).1 = 0%Z \/ (to_tuple stride).2 = 0%Z ->
  variables h !! x = Some xv ->
  is_Some (shape_dict xv Axis.N) ->
  is_Some (shape_dict xv Axis.H) ->
  is_Some (shape_dict xv Axis.W) ->
  (exists self h1, __init__ name ksize stride padding h = Ok (self, h1))
  /\ (let* self := __init__ name ksize stride padding in __call__ self x) h
     = Raise ZeroDivisionError.
Proof.
  intros H0 H1 Hz Hxv [n HN] [xh HH] [xw HW]. split.
  { rewrite init_eq, !bool_decide_eq_true_2 by assumption. eexists _, _. reflexivity. }
  rewrite init_call_eq by assumption.
  pose proof (init_op_parameters name ksize stride padding) as (Hk & Hs & Hp).
  rewrite (exec_cases _ _ (with_inputs (init_op name ksize stride padding) [("x", x)])
             x xv (to_tuple ksize) (to_tuple stride) (to_tuple padding));
    [|cbn [operators]; apply list_lookup_middle; reflexivity
     |reflexivity|exact Hxv|exact Hk|exact Hs|exact Hp].
  rewrite HN, HH, HW.
  destruct (decide ((to_tuple stride).1 = 0%Z)); [reflexivity|].
  destruct (decide ((to_tuple stride).2 = 0%Z)); [reflexivity|].
  destruct Hz; contradiction.
Qed.

Lemma zero_stride_constructed_then_call_raises_witness :
  (exists self h1, __init__ None (Int 0) (Int 0) (Int 0)
                     (mkHeap [mkVariable [1; 8; 8; 16]%Z OrderNHWC None None] [] [])
                   = Ok (self, h1))
  /\ (let* self := __init__ None (Int 0) (Int 0) (Int 0) in __call__ self 0)
       (mkHeap [mkVariable [1; 8; 8; 16]%Z OrderNHWC None None] [] [])
     = Raise ZeroDivisionError.
Proof.
  apply (zero_stride_constructed_then_call_raises None (Int 0) (Int 0) (Int 0) 0
           (mkVariable [1; 8; 8; 16]%Z OrderNHWC None None)).
  - cbn. lia.
  - cbn. lia.
  - left. reflexivity.
  - reflexivity.
  - eexists. reflexivity.
  - eexists. reflexivity.
  - eexists. reflexivity.
Defined.

(** X3: the constructor followed by the call.  When ksize >= stride, the
    strides are non-zero and the input has the four axes, the new operator
    reads the input in slot "x" and writes in slot "y" a new variable with the
    Order of the input, its extents along N and C and the floor-division
    extents along H and W; the nodes that were in the store are as they were. *)
Theorem construct_then_call name ksize stride padding x xv n xh xw c h :
  ((to_tuple ksize).1 >= (to_tuple stride).1)%Z ->
  ((to_tuple ksize).2 >= (to_tuple stride).2)%Z ->
  (to_tuple stride).1 <> 0%Z ->
  (to_tuple stride).2 <> 0%Z ->
  variables h !! x = Some xv ->
  shape_dict xv Axis.N = Some n ->
  shape_dict xv Axis.H = Some xh ->
  shape_dict xv Axis.W = Some xw ->
  shape_dict xv Axis.C = Some c ->
  exists h' yv op',
    (let* self := __init__ name ksize stride padding in __call__ self x) h
    = Ok (length (variables h), h')
    /\ variables h' = variables h ++ [yv]
    /\ order yv = order xv
    /\ shape_dict yv Axis.N = Some n
    /\ shape_dict yv Axis.C = Some c
    /\ shape_dict yv Axis.H
       = Some ((xh + 2 * (to_tuple padding).1 + (to_tuple stride).1
                - (to_tuple ksize).1 - 1) `div` (to_tuple stride).1 + 1)%Z
    /\ shape_dict yv Axis.W
       = Some ((xw + 2 * (to_tuple padding).2 + (to_tuple stride).2
                - (to_tuple ksize).2 - 1) `div` (to_tuple stride).2 + 1)%Z
    /\ operators h' = operators h ++ [op']
    /\ op_class op' = Pooling2DClass
    /\ inputs op' = [("x", x)]
    /\ outputs op' = [("y", length (variables h))]
    /\ parameters op' !! "ksize" = Some (to_tuple ksize)
    /\ parameters op' !! "stride" = Some (to_tuple stride)
    /\ parameters op' !! "padding" = Some (to_tuple padding).
Proof.
  intros H0 H1 Hs0 Hs1 Hxv HN HH HW HC.
  pose proof (init_op_parameters name ksize stride padding) as (Hk & Hs & Hp).
  rewrite init_call_eq by assumption.
  rewrite (exec_eq _ _ (with_inputs (init_op name ksize stride padding) [("x", x)])
             x xv (to_tuple ksize) (to_tuple stride) (to_tuple padding) n xh xw c);
    [|cbn [operators]; apply list_lookup_middle; reflexivity
     |reflexivity|exact Hxv|exact Hk|exact Hs|exact Hp|assumption..].
  cbn [variables].
  eexists _, (y_out xv n xh xw c (to_tuple ksize) (to_tuple stride) (to_tuple padding)), _.
  split; [reflexivity|]. unfold heap_out. cbn [variables operators console].
  split; [reflexivity|]. split; [reflexivity|].
  rewrite !(y_out_shape_dict xv _ _ _ n xh xw c _ _ HN).
  rewrite !(y_out_shape_dict xv _ _ _ n xh xw c _ _ HC).
  rewrite !(y_out_shape_dict xv _ _ _ n xh xw c _ _ HH).
  rewrite !(y_out_shape_dict xv _ _ _ n xh xw c _ _ HW).
  do 4 (split; [reflexivity|]).
  split; [apply ChannelModeSpec.insert_last|].
  do 3 (split; [reflexivity|]).
  split; [exact Hk|]. split; [exact Hs|exact Hp].
Qed.

Lemma construct_then_call_witness :
  exists h' yv op',
    (let* self := __init__ None (Int 3) (Int 2) (Int 0) in __call__ self 0)
      (mkHeap [mkVariable [1; 8; 8; 16]%Z OrderNHWC None None] [] [])
    = Ok (1, h')
    /\ variables h' = [mkVariable [1; 8; 8; 16]%Z OrderNHWC None None] ++ [yv]
    /\ order yv = OrderNHWC
    /\ shape_dict yv Axis.N = Some 1%Z
    /\ shape_dict yv Axis.C = Some 16%Z
    /\ shape_dict yv Axis.H = Some ((8 + 2 * 0 + 2 - 3 - 1) `div` 2 + 1)%Z
    /\ shape_dict yv Axis.W = Some ((8 + 2 * 0 + 2 - 3 - 1) `div` 2 + 1)%Z
    /\ operators h' = [] ++ [op']
    /\ op_class op' = Pooling2DClass
    /\ inputs op' = [("x", 0)]
    /\ outputs op' = [("y", 1)]
    /\ parameters op' !! "ksize" = Some (3, 3)%Z
    /\ parameters op' !! "stride" = Some (2, 2)%Z
    /\ parameters op' !! "padding" = Some (0, 0)%Z.
Proof.
  apply (construct_then_call None (Int 3) (Int 2) (Int 0) 0
           (mkVariable [1; 8; 8; 16]%Z OrderNHWC None None) 1 8 8 16
           (mkHeap [mkVariable [1; 8; 8; 16]%Z OrderNHWC None None] [] []));
    solve [cbn; lia | cbn; discriminate | reflexivity].
Defined.


(** The floor-division extent, for a positive stride: the windows reach the
    end of the padded input and pass it by less than one stride. *)
Lemma out_extent_cover x p s k :
  (0 < s)%Z ->
  (x + 2 * p <= (out_extent x p s k - 1) * s + k < x + 2 * p + s)%Z.
Proof.
  intros Hs. unfold out_extent.
  pose proof (Z.mul_div_le (x + 2 * p + s - k - 1) s Hs) as Hle.
  pose proof (Z.mul_succ_div_gt (x + 2 * p + s - k - 1) s Hs) as Hgt.
  set (q := ((x + 2 * p + s - k - 1) `div` s)%Z) in *.
  replace (q + 1 - 1)%Z with q by lia. nia.
Qed.

Lemma out_extent_exact x p s k :
  (0 < s)%Z ->
  ((x + 2 * p - k) `mod` s = 0 <-> (out_extent x p s k - 1) * s + k = x + 2 * p)%Z.
Proof.
  intros Hs. unfold out_extent.
  replace ((x + 2 * p + s - k - 1) `div` s + 1 - 1)%Z
    with ((x + 2 * p + s - k - 1) `div` s)%Z by lia.
  split.
  - intros Hm. apply Z.mod_divide in Hm; [|lia]. destruct Hm as [m Hm].
    assert (Hq : ((x + 2 * p + s - k - 1) `div` s = m)%Z).
    { symmetry. apply (Z.div_unique_pos _ _ _ (s - 1)); lia. }
    rewrite Hq. lia.
  - intros He.
    replace (x + 2 * p - k)%Z with ((x + 2 * p + s - k - 1) `div` s * s)%Z by lia.
    apply Z.mod_mul. lia.
Qed.

Section cover.

Variables (h : Heap) (self : OpId) (op : operator) (x : VarId) (xv : variable).
Variables (ksize stride padding : Z * Z) (n xh xw c : Z).

Hypothesis Hop : operators h !! self = Some op.
Hypothesis Hx : slot_get (inputs op) "x" = Some x.
Hypothesis Hxv : variables h !! x = Some xv.
Hypothesis Hksize : parameters op !! "ksize" = Some ksize.
Hypothesis Hstride : parameters op !! "stride" = Some stride.
Hypothesis Hpadding : parameters op !! "padding" = Some padding.
Hypothesis HN : shape_dict xv Axis.N = Some n.
Hypothesis HH : shape_dict xv Axis.H = Some xh.
Hypothesis HW : shape_dict xv Axis.W = Some xw.
Hypothesis HC : shape_dict xv Axis.C = Some c.
Hypothesis Hstride0 : (0 < stride.1)%Z.
Hypothesis Hstride1 : (0 < stride.2)%Z.

Lemma exec_positive_strides :
  exec self h
  = Ok (length (variables h), heap_out h self op xv n xh xw c ksize stride padding)
  /\ shape_dict (y_out xv n xh xw c ksize stride padding) Axis.H
     = Some (out_extent xh padding.1 stride.1 ksize.1)
  /\ shape_dict (y_out xv n xh xw c ksize stride padding) Axis.W
     = Some (out_extent xw padding.2 stride.2 ksize.2).
Proof.
  split; [apply (exec_eq h self op x xv ksize stride padding n xh xw c);
          first [assumption | lia]|].
  rewrite (y_out_shape_dict xv _ _ _ n xh xw c _ _ HH).
  rewrite (y_out_shape_dict xv _ _ _ n xh xw c _ _ HW).
  split; reflexivity.
Qed.

(** X4: with positive strides the output extents H2 and W2 make the pooling
    windows cover the padded input: the last window ends at or after the last
    padded position and less than one stride after it; and an input at least
    as large as the kernel gives an extent of at least one. *)
Theorem exec_windows_cover_input :
  exists y h' yv H2 W2,
    exec self h = Ok (y, h')
    /\ variables h' !! y = Some yv
    /\ shape_dict yv Axis.H = Some H2
    /\ shape_dict yv Axis.W = Some W2
    /\ (xh + 2 * padding.1 <= (H2 - 1) * stride.1 + ksize.1
        < xh + 2 * padding.1 + stride.1)%Z
    /\ (xw + 2 * padding.2 <= (W2 - 1) * stride.2 + ksize.2
        < xw + 2 * padding.2 + stride.2)%Z
    /\ (ksize.1 <= xh + 2 * padding.1 -> 1 <= H2)%Z
    /\ (ksize.2 <= xw + 2 * padding.2 -> 1 <= W2)%Z.
Proof.
  destruct exec_positive_strides as (Hrun & HH2 & HW2).
  pose proof (out_extent_cover xh padding.1 stride.1 ksize.1 Hstride0) as Hc0.
  pose proof (out_extent_cover xw padding.2 stride.2 ksize.2 Hstride1) as Hc1.
  exists (length (variables h)), (heap_out h self op xv n xh xw c ksize stride padding),
    (y_out xv n xh xw c ksize stride padding),
    (out_extent xh padding.1 stride.1 ksize.1), (out_extent xw padding.2 stride.2 ksize.2).
  split; [exact Hrun|]. split; [apply heap_out_y|].
  split; [exact HH2|]. split; [exact HW2|].
  split; [exact Hc0|]. split; [exact Hc1|].
  split; intros Hk; nia.
Qed.

(** X5: with positive strides [exec] stays silent exactly when the windows
    tile the padded input along both axes, the last window ending on the last
    padded position; otherwise it writes the one warning. *)
Theorem exec_silent_iff_exact_tiling :
  exists y h' yv H2 W2,
    exec self h = Ok (y, h')
    /\ variables h' !! y = Some yv
    /\ shape_dict yv Axis.H = Some H2
    /\ shape_dict yv Axis.W = Some W2
    /\ (console h' = console h
        <-> ((H2 - 1) * stride.1 + ksize.1 = xh + 2 * padding.1
             /\ (W2 - 1) * stride.2 + ksize.2 = xw + 2 * padding.2)%Z)
    /\ (console h' = console h ++ [edge_warning]
        <-> ~ ((H2 - 1) * stride.1 + ksize.1 = xh + 2 * padding.1
               /\ (W2 - 1) * stride.2 + ksize.2 = xw + 2 * padding.2)%Z).
Proof.
  destruct exec_positive_strides as (Hrun & HH2 & HW2).
  pose proof (out_extent_exact xh padding.1 stride.1 ksize.1 Hstride0) as He0.
  pose proof (out_extent_exact xw padding.2 stride.2 ksize.2 Hstride1) as He1.
  exists (length (variables h)), (heap_out h self op xv n xh xw c ksize stride padding),
    (y_out xv n xh xw c ksize stride padding),
    (out_extent xh padding.1 stride.1 ksize.1), (out_extent xw padding.2 stride.2 ksize.2).
  split; [exact Hrun|]. split; [apply heap_out_y|].
  split; [exact HH2|]. split; [exact HW2|].
  unfold heap_out. cbn [console]. unfold edge_ignored.
  destruct (bool_decide_reflect ((xh + 2 * padding.1 - ksize.1) `mod` stride.1 = 0)%Z)
    as [Hm0|Hm0];
    destruct (bool_decide_reflect ((xw + 2 * padding.2 - ksize.2) `mod` stride.2 = 0)%Z)
      as [Hm1|Hm1]; cbn [negb orb].
  - split; split.
    + intros _. split; [apply He0; exact Hm0|apply He1; exact Hm1].
    + intros _. apply app_nil_r.
    + intros Heq. apply (f_equal length) in Heq.
      rewrite !length_app in Heq. cbn [length] in Heq. lia.
    + intros Hn. exfalso. apply Hn. split; [apply He0; exact Hm0|apply He1; exact Hm1].
  - split; split.
    + intros Heq. apply (f_equal length) in Heq.
      rewrite !length_app in Heq. cbn [length] in Heq. lia.
    + intros [_ Ht]. exfalso. apply Hm1, He1, Ht.
    + intros _ [_ Ht]. apply Hm1, He1, Ht.
    + reflexivity.
  - split; split.
    + intros Heq. apply (f_equal length) in Heq.
      rewrite !length_app in Heq. cbn [length] in Heq. lia.
    + intros [Ht _]. exfalso. apply Hm0, He0, Ht.
    + intros _ [Ht _]. apply Hm0, He0, Ht.
    + reflexivity.
  - split; split.
    + intros Heq. apply (f_equal length) in Heq.
      rewrite !length_app in Heq. cbn [length] in Heq. lia.
    + intros [Ht _]. exfalso. apply Hm0, He0, Ht.
    + intros _ [Ht _]. apply Hm0, He0, Ht.
    + reflexivity.
Qed.

End cover.

Lemma exec_windows_cover_input_witness :
  exists y h' yv H2 W2,
    exec 0 heap_8x8 = Ok (y, h')
    /\ variables h' !! y = Some yv
    /\ shape_dict yv Axis.H = Some H2
    /\ shape_dict yv Axis.W = Some W2
    /\ (8 + 2 * 0 <= (H2 - 1) * 2 + 3 < 8 + 2 * 0 + 2)%Z
    /\ (8 + 2 * 0 <= (W2 - 1) * 2 + 3 < 8 + 2 * 0 + 2)%Z
    /\ (3 <= 8 + 2 * 0 -> 1 <= H2)%Z
    /\ (3 <= 8 + 2 * 0 -> 1 <= W2)%Z.
Proof.
  apply (exec_windows_cover_input heap_8x8 0
           (mkOperator Pooling2DClass None
              (parameters (init_op None (Int 3) (Int 2) (Int 0))) [("x", 0)] [] [])
           0 (mkVariable [1; 8; 8; 16]%Z OrderNHWC None None)
           (3, 3)%Z (2, 2)%Z (0, 0)%Z 1 8 8 16);
    vm_compute; reflexivity.
Defined.

Lemma exec_silent_iff_exact_tiling_witness :
  exists y h' yv H2 W2,
    exec 0 heap_8x8 = Ok (y, h')
    /\ variables h' !! y = Some yv
    /\ shape_dict yv Axis.H = Some H2
    /\ shape_dict yv Axis.W = Some W2
    /\ (console h' = console heap_8x8
        <-> ((H2 - 1) * 2 + 3 = 8 + 2 * 0 /\ (W2 - 1) * 2 + 3 = 8 + 2 * 0)%Z)
    /\ (console h' = console heap_8x8 ++ [edge_warning]
        <-> ~ ((H2 - 1) * 2 + 3 = 8 + 2 * 0 /\ (W2 - 1) * 2 + 3 = 8 + 2 * 0)%Z).
Proof.
  apply (exec_silent_iff_exact_tiling heap_8x8 0
           (mkOperator Pooling2DClass None
              (parameters (init_op None (Int 3) (Int 2) (Int 0))) [("x", 0)] [] [])
           0 (mkVariable [1; 8; 8; 16]%Z OrderNHWC None None)
           (3, 3)%Z (2, 2)%Z (0, 0)%Z 1 8 8 16);
    vm_compute; reflexivity.
Defined.

(** X6: [exec] adds one variable and no operator and touches nothing else:
    the variables and the other operators of the store are as they were, and
    the operator keeps its class, name, parameters, inputs and every output
    slot other than "y". *)
Theorem exec_frame h self op x xv ksize stride padding n xh xw c :
  operators h !! self = Some op ->
  slot_get (inputs op) "x" = Some x ->
  variables h !! x = Some xv ->
  parameters op !! "ksize" = Some ksize ->
  parameters op !! "stride" = Some stride ->
  parameters op !! "padding" = Some padding ->
  stride.1 <> 0%Z ->
  stride.2 <> 0%Z ->
  shape_dict xv Axis.N = Some n ->
  shape_dict xv Axis.H = Some xh ->
  shape_dict xv Axis.W = Some xw ->
  shape_dict xv Axis.C = Some c ->
  exists h' op',
    exec self h = Ok (length (variables h), h')
    /\ length (variables h') = S (length (variables h))
    /\ (forall u, u < length (variables h) -> variables h' !! u = variables h !! u)
    /\ length (operators h') = length (operators h)
    /\ (forall o, o <> self -> operators h' !! o = operators h !! o)
    /\ operators h' !! self = Some op'
    /\ op_class op' = op_class op
    /\ op_name op' = op_name op
    /\ parameters op' = parameters op
    /\ inputs op' = inputs op
    /\ (forall name, name <> "y" ->
        slot_get (outputs op') name = slot_get (outputs op) name).
Proof.
  intros Hop Hx Hxv Hk Hs Hp Hs0 Hs1 HN HH HW HC.
  eexists _, _.
  split; [apply (exec_eq h self op x xv ksize stride padding n xh xw c); assumption|].
  unfold heap_out. cbn [variables operators].
  split; [rewrite length_app; cbn [length]; lia|].
  split; [intros u Hu; apply lookup_app_l; exact Hu|].
  split; [apply length_insert|].
  split; [intros o Ho; apply list_lookup_insert_ne; intros ->; apply Ho; reflexivity|].
  split; [apply list_lookup_insert_eq; eapply lookup_lt_Some; exact Hop|].
  do 4 (split; [reflexivity|]).
  intros name Hname. cbn [with_attributes with_outputs outputs].
  apply slot_get_set_ne. exact Hname.
Qed.

Lemma exec_frame_witness :
  exists h' op',
    exec 0 heap_8x8 = Ok (1, h')
    /\ length (variables h') = 2
    /\ (forall u, u < 1 -> variables h' !! u = variables heap_8x8 !! u)
    /\ length (operators h') = 1
    /\ (forall o, o <> 0 -> operators h' !! o = operators heap_8x8 !! o)
    /\ operators h' !! 0 = Some op'
    /\ op_class op' = Pooling2DClass
    /\ op_name op' = None
    /\ parameters op' = parameters (init_op None (Int 3) (Int 2) (Int 0))
    /\ inputs op' = [("x", 0)]
    /\ (forall name, name <> "y" -> slot_get (outputs op') name = slot_get [] name).
Proof.
  apply (exec_frame heap_8x8 0
           (mkOperator Pooling2DClass None
              (parameters (init_op None (Int 3) (Int 2) (Int 0))) [("x", 0)] [] [])
           0 (mkVariable [1; 8; 8; 16]%Z OrderNHWC None None)
           (3, 3)%Z (2, 2)%Z (0, 0)%Z 1 8 8 16);
    vm_compute; solve [reflexivity | discriminate].
Defined.

End Pooling2DExtra.

(** ** The channel-mode pass: splices, well-formed stores, progress *)

Module ChannelModeExtra.
Import InsertChannelModeConversion ChannelModeSpec.

Lemma well_formedb_sound h : well_formedb h = true -> well_formed h.
Proof.
  unfold well_formedb. intros Hb. rewrite forallb_forall in Hb. split.
  - apply no_dangling_intro. apply forallb_forall. intros op Hin.
    specialize (Hb op Hin). apply andb_true_iff in Hb. apply Hb.
  - intros o op Hop Hc.
    assert (Hin : In op (operators h))
      by (apply list_elem_of_In; eapply list_elem_of_lookup_2; exact Hop).
    specialize (Hb op Hin). apply andb_true_iff in Hb. destruct Hb as [_ Hb].
    destruct Hc as [Hc|Hc]; rewrite Hc in Hb; apply andb_true_iff in Hb;
      destruct Hb as [H0 H1]; apply bool_decide_eq_true in H0, H1; auto.
Qed.

Lemma lookup_spliced (ops : list operator) o op1 conv o' op' :
  o < length ops ->
  (<[o := op1]> ops ++ [conv]) !! o' = Some op' ->
  (o' = o /\ op' = op1)
  \/ (o' <> o /\ ops !! o' = Some op')
  \/ (o' = length ops /\ op' = conv).
Proof.
  intros Holt Hl. apply lookup_app_Some in Hl. destruct Hl as [Hl|[Hge Hl]].
  - apply list_lookup_insert_Some in Hl. destruct Hl as [(-> & <- & _)|(Hne & Hl)].
    + left. auto.
    + right. left. auto.
  - rewrite length_insert in Hge, Hl. right. right.
    destruct (o' - length ops) as [|k] eqn:Hk; [|destruct k; discriminate].
    cbn in Hl. injection Hl as <-. split; [lia|reflexivity].
Qed.

Section well_formed.

Context `{Externals}.

Lemma well_formed_input_spliced h o op v x target :
  well_formed h -> operators h !! o = Some op -> variables h !! v = Some x ->
  well_formed (input_spliced h o op v x target).
Proof.
  intros [Hnd Hcs] Hop Hx.
  pose proof (lookup_lt_Some _ _ _ Hop) as Holt.
  pose proof (lookup_lt_Some _ _ _ Hx) as Hvlt.
  pose proof (no_dangling_slots_bound h o op Hnd Hop) as Hb.
  split.
  - intros o' op' name u Hop' Hin. unfold input_spliced in *.
    cbn [variables operators] in *. rewrite length_app. cbn [length].
    apply lookup_spliced in Hop'; [|exact Holt].
    destruct Hop' as [(_ & ->)|[(_ & Hold)|(_ & ->)]].
    + cbn [inputs outputs with_inputs] in Hin. destruct Hin as [Hin|Hin].
      * apply elem_of_rebind in Hin. destruct Hin as [->|Hin]; [lia|].
        pose proof (Hb name u (or_introl Hin)). lia.
      * pose proof (Hb name u (or_intror Hin)). lia.
    + pose proof (Hnd o' op' name u Hold Hin). lia.
    + cbn [inputs outputs conversion_op] in Hin.
      destruct Hin as [Hin|Hin]; apply list_elem_of_singleton in Hin;
        injection Hin as _ ->; lia.
  - intros o' op' Hop' Hc. unfold input_spliced in Hop'. cbn [operators] in Hop'.
    apply lookup_spliced in Hop'; [|exact Holt].
    destruct Hop' as [(_ & ->)|[(_ & Hold)|(_ & ->)]].
    + cbn [inputs outputs with_inputs op_class] in *. rewrite rebind_fst.
      eapply Hcs; eassumption.
    + eapply Hcs; eassumption.
    + cbn. split; apply list_elem_of_singleton; reflexivity.
Qed.

Lemma well_formed_output_spliced h o op v x target :
  well_formed h -> operators h !! o = Some op -> variables h !! v = Some x ->
  well_formed (output_spliced h o op v x target).
Proof.
  intros [Hnd Hcs] Hop Hx.
  pose proof (lookup_lt_Some _ _ _ Hop) as Holt.
  pose proof (lookup_lt_Some _ _ _ Hx) as Hvlt.
  pose proof (no_dangling_slots_bound h o op Hnd Hop) as Hb.
  pose proof (output_spliced_operators h o op v x target Hnd Hop) as Hops.
  split.
  - intros o' op' name u Hop' Hin. rewrite Hops in Hop'.
    unfold output_spliced. cbn [variables]. rewrite length_app. cbn [length].
    apply lookup_spliced in Hop'; [|exact Holt].
    destruct Hop' as [(_ & ->)|[(_ & Hold)|(_ & ->)]].
    + cbn [inputs outputs with_outputs] in Hin. destruct Hin as [Hin|Hin].
      * pose proof (Hb name u (or_introl Hin)). lia.
      * apply elem_of_rebind in Hin. destruct Hin as [->|Hin]; [lia|].
        pose proof (Hb name u (or_intror Hin)). lia.
    + pose proof (Hnd o' op' name u Hold Hin). lia.
    + cbn [inputs outputs conversion_op] in Hin.
      destruct Hin as [Hin|Hin]; apply list_elem_of_singleton in Hin;
        injection Hin as _ ->; lia.
  - intros o' op' Hop' Hc. rewrite Hops in Hop'.
    apply lookup_spliced in Hop'; [|exact Holt].
    destruct Hop' as [(_ & ->)|[(_ & Hold)|(_ & ->)]].
    + cbn [inputs outputs with_outputs op_class] in *. rewrite rebind_fst.
      eapply Hcs; eassumption.
    + eapply Hcs; eassumption.
    + cbn. split; apply list_elem_of_singleton; reflexivity.
Qed.

End well_formed.

Lemma sum_list_with_ext_in {A} (f g : A -> nat) l :
  (forall x, x ∈ l -> f x = g x) -> sum_list_with f l = sum_list_with g l.
Proof.
  induction l as [|a l IH]; intros Hfg; [reflexivity|]. cbn.
  rewrite (Hfg a) by left. rewrite IH; [reflexivity|].
  intros x Hx. apply Hfg. right. exact Hx.
Qed.

Lemma sum_list_with_le {A} (f g : A -> nat) l :
  (forall x, x ∈ l -> f x <= g x) -> sum_list_with f l <= sum_list_with g l.
Proof.
  induction l as [|a l IH]; intros Hfg; [reflexivity|]. cbn.
  pose proof (Hfg a (list_elem_of_here a l)).
  assert (sum_list_with f l <= sum_list_with g l)
    by (apply IH; intros x Hx; apply Hfg; right; exact Hx).
  lia.
Qed.

Lemma sum_list_with_lt {A} (f g : A -> nat) l x :
  (forall y, y ∈ l -> f y <= g y) -> x ∈ l -> f x < g x ->
  sum_list_with f l < sum_list_with g l.
Proof.
  induction l as [|a l IH]; intros Hfg Hin Hlt; [inversion Hin|]. cbn.
  pose proof (Hfg a (list_elem_of_here a l)) as Ha.
  assert (Hle : sum_list_with f l <= sum_list_with g l)
    by (apply sum_list_with_le; intros y Hy; apply Hfg; right; exact Hy).
  apply elem_of_cons in Hin. destruct Hin as [<-|Hin]; [lia|].
  assert (sum_list_with f l < sum_list_with g l)
    by (apply IH; [intros y Hy; apply Hfg; right; exact Hy|exact Hin|exact Hlt]).
  lia.
Qed.

Lemma sum_list_with_insert_lt {A} (f : A -> nat) l i x y :
  l !! i = Some y -> f x < f y ->
  sum_list_with f (<[i := x]> l) < sum_list_with f l.
Proof.
  revert i. induction l as [|a l IH]; intros i Hi Hlt; [discriminate|].
  destruct i as [|i].
  - cbn in *. injection Hi as ->. lia.
  - cbn in Hi. specialize (IH i Hi Hlt).
    change (sum_list_with f (<[S i := x]> (a :: l)))
      with (f a + sum_list_with f (<[i := x]> l)).
    change (sum_list_with f (a :: l)) with (f a + sum_list_with f l). lia.
Qed.

Section mismatches.

Context `{Externals}.

Lemma slot_has_mode_None h d name target :
  slot_get d name = None -> slot_has_mode h d name target = false.
Proof. intros Hn. unfold slot_has_mode. rewrite Hn. reflexivity. Qed.

Lemma slot_has_mode_stable h h' d name target :
  slots_below_store h d -> variables_kept h h' ->
  slot_has_mode h' d name target = slot_has_mode h d name target.
Proof.
  intros Hb Hk. destruct (slot_get d name) as [u|] eqn:Hu.
  - destruct (lookup_lt_is_Some_2 (variables h) u) as [xu Hxu].
    { eapply Hb. apply slot_get_elem. exact Hu. }
    rewrite (slot_has_mode_intro h' d name target u xu Hu (Hk _ _ Hxu)).
    rewrite (slot_has_mode_intro h d name target u xu Hu Hxu). reflexivity.
  - rewrite !slot_has_mode_None by exact Hu. reflexivity.
Qed.

Lemma mismatch_cases h d target name : mismatch h d target name <= 1.
Proof. unfold mismatch. destruct (slot_has_mode h d name target); lia. Qed.

Lemma mismatch_rebind_le h h' d v w xw target name :
  slots_below_store h d -> variables_kept h h' ->
  variables h' !! w = Some xw -> mode_of xw = target ->
  mismatch h' (rebind v w d) target name <= mismatch h d target name.
Proof.
  intros Hb Hk Hw Hm. unfold mismatch.
  destruct (slot_get d name) as [u|] eqn:Hu.
  - destruct (lookup_lt_is_Some_2 (variables h) u) as [xu Hxu].
    { eapply Hb. apply slot_get_elem. exact Hu. }
    rewrite (slot_has_mode_intro h d name target u xu Hu Hxu).
    destruct (decide (u = v)) as [->|Hne].
    + rewrite (slot_has_mode_intro h' (rebind v w d) name target w xw); [| |exact Hw].
      * rewrite (bool_decide_eq_true_2 _ Hm). lia.
      * rewrite slot_get_rebind, Hu. cbn. rewrite decide_True by reflexivity. reflexivity.
    + rewrite (slot_has_mode_intro h' (rebind v w d) name target u xu);
        [reflexivity| |exact (Hk _ _ Hxu)].
      rewrite slot_get_rebind, Hu. cbn. rewrite decide_False by exact Hne. reflexivity.
  - rewrite (slot_has_mode_None h d) by exact Hu.
    destruct (slot_has_mode h' (rebind v w d) name target); lia.
Qed.

Lemma mismatch_rebind_lt h h' d v w x xw target name :
  variables h' !! w = Some xw -> mode_of xw = target ->
  slot_get d name = Some v -> variables h !! v = Some x -> mode_of x <> target ->
  mismatch h' (rebind v w d) target name < mismatch h d target name.
Proof.
  intros Hw Hm Hv Hx Hne. unfold mismatch.
  rewrite (slot_has_mode_intro h d name target v x Hv Hx).
  rewrite (bool_decide_eq_false_2 _ Hne).
  rewrite (slot_has_mode_intro h' (rebind v w d) name target w xw); [| |exact Hw].
  - rewrite (bool_decide_eq_true_2 _ Hm). lia.
  - rewrite slot_get_rebind, Hv. cbn. rewrite decide_True by reflexivity. reflexivity.
Qed.

Lemma side_mismatches_stable h h' d req :
  slots_below_store h d -> variables_kept h h' ->
  side_mismatches h' d req = side_mismatches h d req.
Proof.
  intros Hb Hk. unfold side_mismatches. apply sum_list_with_ext_in.
  intros name _. unfold mismatch. rewrite (slot_has_mode_stable h h') by assumption.
  reflexivity.
Qed.

Lemma side_mismatches_rebind_lt h h' d v w x xw req name :
  slots_below_store h d -> variables_kept h h' ->
  variables h' !! w = Some xw -> mode_of xw = req.2 ->
  name ∈ req.1 ->
  slot_get d name = Some v -> variables h !! v = Some x -> mode_of x <> req.2 ->
  side_mismatches h' (rebind v w d) req < side_mismatches h d req.
Proof.
  intros Hb Hk Hw Hm Hin Hv Hx Hne. unfold side_mismatches.
  apply (sum_list_with_lt _ _ _ name).
  - intros name' _. eapply mismatch_rebind_le; eassumption.
  - exact Hin.
  - eapply mismatch_rebind_lt; eassumption.
Qed.

Lemma slots_bound_sides h op :
  slots_bound h op ->
  slots_below_store h (inputs op) /\ slots_below_store h (outputs op).
Proof.
  intros Hb. split; intros k u Hin; apply (Hb k u); auto.
Qed.

Lemma mismatches_stable h h' op :
  slots_bound h op -> variables_kept h h' -> mismatches h' op = mismatches h op.
Proof.
  intros Hb Hk. destruct (slots_bound_sides h op Hb) as [Hi Ho]. unfold mismatches.
  rewrite (side_mismatches_stable h h' (inputs op)) by assumption.
  rewrite (side_mismatches_stable h h' (outputs op)) by assumption.
  reflexivity.
Qed.

Lemma input_requirement_with_inputs op v w :
  input_requirement (with_inputs op (rebind v w (inputs op))) = input_requirement op.
Proof.
  unfold input_requirement. cbn [op_class inputs with_inputs]. rewrite rebind_fst.
  reflexivity.
Qed.

Lemma output_requirement_with_outputs op v w :
  output_requirement (with_outputs op (rebind v w (outputs op))) = output_requirement op.
Proof.
  unfold output_requirement. cbn [op_class outputs with_outputs]. rewrite rebind_fst.
  reflexivity.
Qed.

Lemma mismatches_input_rebind h h' op v w x xw name :
  slots_bound h op -> variables_kept h h' ->
  variables h' !! w = Some xw -> mode_of xw = (input_requirement op).2 ->
  name ∈ (input_requirement op).1 ->
  slot_get (inputs op) name = Some v -> variables h !! v = Some x ->
  mode_of x <> (input_requirement op).2 ->
  mismatches h' (with_inputs op (rebind v w (inputs op))) < mismatches h op.
Proof.
  intros Hb Hk Hw Hm Hin Hv Hx Hne.
  destruct (slots_bound_sides h op Hb) as [Hi Ho]. unfold mismatches.
  rewrite input_requirement_with_inputs.
  change (output_requirement (with_inputs op (rebind v w (inputs op))))
    with (output_requirement op).
  cbn [inputs outputs with_inputs].
  rewrite (side_mismatches_stable h h' (outputs op)) by assumption.
  pose proof (side_mismatches_rebind_lt h h' (inputs op) v w x xw
                (input_requirement op) name Hi Hk Hw Hm Hin Hv Hx Hne).
  lia.
Qed.

Lemma mismatches_output_rebind h h' op v w x xw name :
  slots_bound h op -> variables_kept h h' ->
  variables h' !! w = Some xw -> mode_of xw = (output_requirement op).2 ->
  name ∈ (output_requirement op).1 ->
  slot_get (outputs op) name = Some v -> variables h !! v = Some x ->
  mode_of x <> (output_requirement op).2 ->
  mismatches h' (with_outputs op (rebind v w (outputs op))) < mismatches h op.
Proof.
  intros Hb Hk Hw Hm Hin Hv Hx Hne.
  destruct (slots_bound_sides h op Hb) as [Hi Ho]. unfold mismatches.
  rewrite output_requirement_with_outputs.
  change (input_requirement (with_outputs op (rebind v w (outputs op))))
    with (input_requirement op).
  cbn [inputs outputs with_outputs].
  rewrite (side_mismatches_stable h h' (inputs op)) by assumption.
  pose proof (side_mismatches_rebind_lt h h' (outputs op) v w x xw
                (output_requirement op) name Ho Hk Hw Hm Hin Hv Hx Hne).
  lia.
Qed.

Lemma total_mismatches_splice h h' o op op1 conv :
  no_dangling h -> operators h !! o = Some op ->
  operators h' = <[o := op1]> (operators h) ++ [conv] ->
  variables_kept h h' ->
  mismatches h' conv = 0 ->
  mismatches h' op1 < mismatches h op ->
  total_mismatches h' < total_mismatches h.
Proof.
  intros Hnd Hop Hops Hk Hconv Hlt. unfold total_mismatches.
  rewrite Hops, sum_list_with_app. cbn [sum_list_with]. rewrite Hconv.
  assert (Hsame : sum_list_with (mismatches h') (<[o := op1]> (operators h))
                  < sum_list_with (mismatches h) (operators h)).
  { destruct (decide (mismatches h' op = mismatches h op)) as [He|He]; cycle 1.
    { exfalso. apply He. apply mismatches_stable; [|exact Hk].
      eapply no_dangling_slots_bound; eassumption. }
    rewrite <- (sum_list_with_ext_in (mismatches h') (mismatches h) (operators h)).
    - apply (sum_list_with_insert_lt _ _ _ _ op Hop). lia.
    - intros op' Hin. apply list_elem_of_lookup_1 in Hin. destruct Hin as [i Hi].
      apply mismatches_stable; [|exact Hk]. eapply no_dangling_slots_bound; eassumption. }
  lia.
Qed.

End mismatches.

Section progress.

Context `{Externals}.

Lemma mode_other x target : mode_of x <> target -> mode_of x = other_mode target.
Proof. destruct (mode_of x), target; intros Hne; try reflexivity; contradiction. Qed.

Lemma mismatch_zero h d target name v x :
  slot_get d name = Some v -> variables h !! v = Some x -> mode_of x = target ->
  mismatch h d target name = 0.
Proof.
  intros Hv Hx Hm. unfold mismatch.
  rewrite (slot_has_mode_intro h d name target v x Hv Hx).
  rewrite (bool_decide_eq_true_2 _ Hm). reflexivity.
Qed.

Lemma mismatches_input_conversion h v w x xw target :
  variables h !! v = Some x -> mode_of x <> target ->
  variables h !! w = Some xw -> mode_of xw = target ->
  mismatches h (conversion_op (input_conversion target) v w) = 0.
Proof.
  intros Hx Hne Hw Hm. apply mode_other in Hne.
  unfold mismatches, side_mismatches.
  cbn [conversion_op inputs outputs].
  destruct target.
  - change (input_requirement (conversion_op (input_conversion R) v w))
      with (["x0"], RGBA).
    change (output_requirement (conversion_op (input_conversion R) v w))
      with (["y"], R).
    cbn [fst snd sum_list_with].
    rewrite (mismatch_zero h _ _ "x0" v x), (mismatch_zero h _ _ "y" w xw);
      first [reflexivity | assumption].
  - change (input_requirement (conversion_op (input_conversion RGBA) v w))
      with (["x0"], R).
    change (output_requirement (conversion_op (input_conversion RGBA) v w))
      with (["y"], RGBA).
    cbn [fst snd sum_list_with].
    rewrite (mismatch_zero h _ _ "x0" v x), (mismatch_zero h _ _ "y" w xw);
      first [reflexivity | assumption].
Qed.

Lemma mismatches_output_conversion h v w x xw target :
  variables h !! v = Some x -> mode_of x <> target ->
  variables h !! w = Some xw -> mode_of xw = target ->
  mismatches h (conversion_op (output_conversion target) w v) = 0.
Proof.
  intros Hx Hne Hw Hm. apply mode_other in Hne.
  unfold mismatches, side_mismatches.
  cbn [conversion_op inputs outputs].
  destruct target.
  - change (input_requirement (conversion_op (output_conversion R) w v))
      with (["x0"], R).
    change (output_requirement (conversion_op (output_conversion R) w v))
      with (["y"], RGBA).
    cbn [fst snd sum_list_with].
    rewrite (mismatch_zero h _ _ "x0" w xw), (mismatch_zero h _ _ "y" v x);
      first [reflexivity | assumption].
  - change (input_requirement (conversion_op (output_conversion RGBA) w v))
      with (["x0"], RGBA).
    change (output_requirement (conversion_op (output_conversion RGBA) w v))
      with (["y"], R).
    cbn [fst snd sum_list_with].
    rewrite (mismatch_zero h _ _ "x0" w xw), (mismatch_zero h _ _ "y" v x);
      first [reflexivity | assumption].
Qed.

Lemma variables_kept_input_spliced h o op v x target :
  variables_kept h (input_spliced h o op v x target).
Proof.
  intros u xu Hu. unfold input_spliced. cbn [variables].
  rewrite lookup_app_l by (eapply lookup_lt_Some; exact Hu). exact Hu.
Qed.

Lemma variables_kept_output_spliced h o op v x target :
  variables_kept h (output_spliced h o op v x target).
Proof.
  intros u xu Hu. unfold output_spliced. cbn [variables].
  rewrite lookup_app_l by (eapply lookup_lt_Some; exact Hu). exact Hu.
Qed.

Lemma progress_refl h : well_formed h -> progress h false h.
Proof. intros Hwf. split; [exact Hwf|]. split; [apply evolves_refl|reflexivity]. Qed.

Lemma progress_input_spliced h o op name v x :
  well_formed h -> operators h !! o = Some op ->
  name ∈ (input_requirement op).1 ->
  slot_get (inputs op) name = Some v -> variables h !! v = Some x ->
  mode_of x <> (input_requirement op).2 ->
  progress h true (input_spliced h o op v x (input_requirement op).2).
Proof.
  intros Hwf Hop Hreq Hv Hx Hne. pose proof Hwf as [Hnd _].
  split; [apply well_formed_input_spliced; assumption|].
  split; [apply evolves_input_spliced; exact Hop|].
  split; [apply length_input_spliced|].
  pose proof (variables_kept_input_spliced h o op v x (input_requirement op).2) as Hk.
  assert (Hw : variables (input_spliced h o op v x (input_requirement op).2)
               !! length (variables h)
               = Some (mkVariable (shape x) (order x) (Some (input_requirement op).2)
                         (Some ((texture_of x).1, (texture_of x).2))))
    by (unfold input_spliced; cbn [variables]; apply list_lookup_middle; reflexivity).
  eapply (total_mismatches_splice h _ o op); [exact Hnd|exact Hop|reflexivity|exact Hk| |].
  - eapply mismatches_input_conversion; [apply Hk; exact Hx|exact Hne|exact Hw|reflexivity].
  - eapply mismatches_input_rebind;
      [eapply no_dangling_slots_bound; eassumption|exact Hk|exact Hw|reflexivity
      |exact Hreq|exact Hv|exact Hx|exact Hne].
Qed.

Lemma progress_output_spliced h o op name v x :
  well_formed h -> operators h !! o = Some op ->
  name ∈ (output_requirement op).1 ->
  slot_get (outputs op) name = Some v -> variables h !! v = Some x ->
  mode_of x <> (output_requirement op).2 ->
  progress h true (output_spliced h o op v x (output_requirement op).2).
Proof.
  intros Hwf Hop Hreq Hv Hx Hne. pose proof Hwf as [Hnd _].
  split; [apply well_formed_output_spliced; assumption|].
  split; [apply evolves_output_spliced; exact Hop|].
  split; [apply length_output_spliced|].
  pose proof (variables_kept_output_spliced h o op v x (output_requirement op).2) as Hk.
  assert (Hw : variables (output_spliced h o op v x (output_requirement op).2)
               !! length (variables h)
               = Some (mkVariable (shape x) (order x) (Some (output_requirement op).2) None))
    by (unfold output_spliced; cbn [variables]; apply list_lookup_middle; reflexivity).
  eapply (total_mismatches_splice h _ o op);
    [exact Hnd|exact Hop|apply output_spliced_operators; assumption|exact Hk| |].
  - eapply mismatches_output_conversion;
      [apply Hk; exact Hx|exact Hne|exact Hw|reflexivity].
  - eapply mismatches_output_rebind;
      [eapply no_dangling_slots_bound; eassumption|exact Hk|exact Hw|reflexivity
      |exact Hreq|exact Hv|exact Hx|exact Hne].
Qed.

Lemma well_formed_slot_lookup h o op name :
  well_formed h -> operators h !! o = Some op ->
  (name ∈ (inputs op).*1 ->
   exists v x, slot_get (inputs op) name = Some v /\ variables h !! v = Some x)
  /\ (name ∈ (outputs op).*1 ->
      exists v x, slot_get (outputs op) name = Some v /\ variables h !! v = Some x).
Proof.
  intros [Hnd _] Hop.
  pose proof (no_dangling_slots_bound h o op Hnd Hop) as Hb.
  split; intros Hin; destruct (slot_get_is_Some _ _ Hin) as [v Hv].
  - destruct (slot_bound_lookup h op name v Hb (or_introl Hv)) as [x Hx]. eauto.
  - destruct (slot_bound_lookup h op name v Hb (or_intror Hv)) as [x Hx]. eauto.
Qed.

Lemma replace_input_progress h o op name :
  well_formed h -> operators h !! o = Some op ->
  name ∈ (inputs op).*1 -> name ∈ (input_requirement op).1 ->
  exists b h',
    _replace_input o name (input_requirement op).2 h = Ok (b, h') /\ progress h b h'.
Proof.
  intros Hwf Hop Hin Hreq.
  destruct (proj1 (well_formed_slot_lookup h o op name Hwf Hop) Hin) as (v & x & Hv & Hx).
  destruct (decide (mode_of x = (input_requirement op).2)) as [Hm|Hm].
  - exists false, h. split; [eapply replace_input_false; eassumption|].
    apply progress_refl. exact Hwf.
  - exists true, (input_spliced h o op v x (input_requirement op).2).
    split; [eapply replace_input_true; eassumption|].
    eapply progress_input_spliced; eassumption.
Qed.

Lemma replace_output_progress h o op name :
  well_formed h -> operators h !! o = Some op ->
  name ∈ (outputs op).*1 -> name ∈ (output_requirement op).1 ->
  exists b h',
    _replace_output o name (output_requirement op).2 h = Ok (b, h') /\ progress h b h'.
Proof.
  intros Hwf Hop Hin Hreq.
  destruct (proj2 (well_formed_slot_lookup h o op name Hwf Hop) Hin) as (v & x & Hv & Hx).
  destruct (decide (mode_of x = (output_requirement op).2)) as [Hm|Hm].
  - exists false, h. split; [eapply replace_output_false; eassumption|].
    apply progress_refl. exact Hwf.
  - exists true, (output_spliced h o op v x (output_requirement op).2).
    split; [eapply replace_output_true; eassumption|].
    eapply progress_output_spliced; eassumption.
Qed.

Lemma any_of_input_progress h o op names :
  well_formed h -> operators h !! o = Some op ->
  (forall name, name ∈ names ->
     name ∈ (inputs op).*1 /\ name ∈ (input_requirement op).1) ->
  exists b h',
    any_of names (fun var_name => _replace_input o var_name (input_requirement op).2) h
    = Ok (b, h')
    /\ progress h b h'.
Proof.
  intros Hwf Hop. induction names as [|name names IH]; intros Hsub.
  - exists false, h. split; [reflexivity|apply progress_refl; exact Hwf].
  - destruct (Hsub name (list_elem_of_here _ _)) as [Hin Hreq].
    destruct (replace_input_progress h o op name Hwf Hop Hin Hreq)
      as (b1 & h1 & Hrun & Hp).
    cbn [any_of]. rewrite (bind_ok _ _ _ _ _ Hrun). destruct b1.
    + exists true, h1. split; [reflexivity|exact Hp].
    + destruct Hp as (_ & _ & ->). apply IH.
      intros name' Hin'. apply Hsub. right. exact Hin'.
Qed.

Lemma any_of_output_progress h o op names :
  well_formed h -> operators h !! o = Some op ->
  (forall name, name ∈ names ->
     name ∈ (outputs op).*1 /\ name ∈ (output_requirement op).1) ->
  exists b h',
    any_of names (fun var_name => _replace_output o var_name (output_requirement op).2) h
    = Ok (b, h')
    /\ progress h b h'.
Proof.
  intros Hwf Hop. induction names as [|name names IH]; intros Hsub.
  - exists false, h. split; [reflexivity|apply progress_refl; exact Hwf].
  - destruct (Hsub name (list_elem_of_here _ _)) as [Hin Hreq].
    destruct (replace_output_progress h o op name Hwf Hop Hin Hreq)
      as (b1 & h1 & Hrun & Hp).
    cbn [any_of]. rewrite (bind_ok _ _ _ _ _ Hrun). destruct b1.
    + exists true, h1. split; [reflexivity|exact Hp].
    + destruct Hp as (_ & _ & ->). apply IH.
      intros name' Hin'. apply Hsub. right. exact Hin'.
Qed.

(** Two calls in a row on a well-formed store. *)
Lemma two_calls_progress (m1 m2 : M bool) flag_changed h :
  (exists b h', m1 h = Ok (b, h') /\ progress h b h') ->
  (forall h1, well_formed h1 -> evolves h h1 ->
     exists b h', m2 h1 = Ok (b, h') /\ progress h1 b h') ->
  exists b h',
    (let* b := m1 in
     let flag_changed := flag_changed || b in
     let* b := m2 in
     ret (flag_changed || b)) h = Ok (flag_changed || b, h')
    /\ body_progress 1 h b h'.
Proof.
  intros (b1 & h1 & R1 & (W1 & E1 & P1)) H2.
  destruct (H2 h1 W1 E1) as (b2 & h2 & R2 & (W2 & E2 & P2)).
  exists (b1 || b2), h2. split.
  { rewrite (bind_ok _ _ _ _ _ R1), (bind_ok _ _ _ _ _ R2). unfold ret.
    rewrite orb_assoc. reflexivity. }
  split; [exact W2|]. split; [eapply evolves_trans; eassumption|].
  destruct b1, b2; cbn [orb].
  - destruct P1 as [L1 T1], P2 as [L2 T2]. split; [lia|]. split; lia.
  - subst h2. destruct P1 as [L1 T1]. split; [lia|]. split; lia.
  - subst h1. destruct P2 as [L2 T2]. split; [lia|]. split; lia.
  - subst h1 h2. split; [lia|reflexivity].
Qed.

Lemma optimize_body_progress flag_changed h o :
  well_formed h -> o < length (operators h) ->
  exists b h',
    optimize_body flag_changed o h = Ok (flag_changed || b, h')
    /\ body_progress 1 h b h'.
Proof.
  intros Hwf Holt. destruct (lookup_lt_is_Some_2 _ _ Holt) as [op Hop].
  unfold optimize_body. rewrite (bind_ok _ _ _ _ _ (read_op_ok _ _ _ Hop)).
  assert (Hskip : exists b h',
            ret flag_changed h = Ok (flag_changed || b, h') /\ body_progress 1 h b h').
  { exists false, h. rewrite orb_false_r. split; [reflexivity|].
    split; [exact Hwf|]. split; [apply evolves_refl|]. split; [lia|reflexivity]. }
  assert (Hconv : is_conversion (op_class op) ->
            exists b h',
              (let* b := _replace_input o "x0" (input_requirement op).2 in
               let flag_changed := flag_changed || b in
               let* b := _replace_output o "y" (output_requirement op).2 in
               ret (flag_changed || b)) h = Ok (flag_changed || b, h')
              /\ body_progress 1 h b h').
  { intros Hc. destruct Hwf as [Hnd Hcs]. destruct (Hcs o op Hop Hc) as [Hx0 Hy].
    apply two_calls_progress.
    - apply (replace_input_progress h o op "x0"); [split; assumption|exact Hop|exact Hx0|].
      destruct Hc as [Hc|Hc]; unfold input_requirement; rewrite Hc; left.
    - intros h1 W1 E1. destruct (evolves_operators h h1 E1 o op Hop)
        as (op1 & Hop1 & Hc1 & Hi1 & Ho1).
      assert (Hreq : output_requirement op1 = output_requirement op).
      { unfold output_requirement. rewrite Hc1.
        destruct Hc as [Hc|Hc]; rewrite Hc; reflexivity. }
      rewrite <- Hreq.
      apply (replace_output_progress h1 o op1 "y"); [exact W1|exact Hop1| |].
      + rewrite Ho1. exact Hy.
      + rewrite Hreq. destruct Hc as [Hc|Hc]; unfold output_requirement; rewrite Hc; left. }
  assert (Hall : (input_requirement op = ((inputs op).*1, R)) ->
            (forall op1, op_class op1 = op_class op ->
               output_requirement op1 = ((outputs op1).*1, R)) ->
            exists b h',
              (let* b := _replace_input_all o R in
               let flag_changed := flag_changed || b in
               let* b := _replace_output_all o R in
               ret (flag_changed || b)) h = Ok (flag_changed || b, h')
              /\ body_progress 1 h b h').
  { intros Hri Hro. apply two_calls_progress.
    - unfold _replace_input_all. rewrite (bind_ok _ _ _ _ _ (read_op_ok _ _ _ Hop)).
      pose proof (any_of_input_progress h o op (inputs op).*1 Hwf Hop) as Hany.
      rewrite Hri in Hany. cbn [fst snd] in Hany. apply Hany. auto.
    - intros h1 W1 E1. destruct (evolves_operators h h1 E1 o op Hop)
        as (op1 & Hop1 & Hc1 & Hi1 & Ho1).
      unfold _replace_output_all. rewrite (bind_ok _ _ _ _ _ (read_op_ok _ _ _ Hop1)).
      pose proof (any_of_output_progress h1 o op1 (outputs op1).*1 W1 Hop1) as Hany.
      rewrite (Hro op1 Hc1) in Hany. cbn [fst snd] in Hany. apply Hany. auto. }
  destruct (op_class op) eqn:Hc.
  - exact Hskip.
  - exact Hskip.
  - assert (Hr : input_requirement op = (["x0"], RGBA) /\ output_requirement op = (["y"], R))
      by (unfold input_requirement, output_requirement; rewrite Hc; auto).
    destruct Hr as [Hri Hro]. rewrite Hri, Hro in Hconv. apply Hconv. left. reflexivity.
  - assert (Hr : input_requirement op = (["x0"], R) /\ output_requirement op = (["y"], RGBA))
      by (unfold input_requirement, output_requirement; rewrite Hc; auto).
    destruct Hr as [Hri Hro]. rewrite Hri, Hro in Hconv. apply Hconv. right. reflexivity.
  - apply Hall.
    + unfold input_requirement. rewrite Hc. reflexivity.
    + intros op1 Hc1. unfold output_requirement. rewrite Hc1. reflexivity.
  - apply Hall.
    + unfold input_requirement. rewrite Hc. reflexivity.
    + intros op1 Hc1. unfold output_requirement. rewrite Hc1. reflexivity.
Qed.

Lemma optimize_loop_progress ops : forall flag_changed h,
  well_formed h ->
  forallb (fun o => bool_decide (o < length (operators h))) ops = true ->
  exists b h',
    optimize_loop flag_changed ops h = Ok (flag_changed || b, h')
    /\ body_progress (length ops) h b h'.
Proof.
  induction ops as [|o ops IH]; intros flag_changed h Hwf Hval.
  - exists false, h. rewrite orb_false_r. split; [reflexivity|].
    split; [exact Hwf|]. split; [apply evolves_refl|]. split; [lia|reflexivity].
  - cbn [forallb] in Hval. apply andb_true_iff in Hval. destruct Hval as [Ho Hval].
    apply bool_decide_eq_true in Ho.
    destruct (optimize_body_progress flag_changed h o Hwf Ho)
      as (b1 & h1 & R1 & (W1 & E1 & L1 & P1)).
    pose proof (evolves_length_operators h h1 E1) as Hlen.
    destruct (IH (flag_changed || b1) h1 W1) as (b2 & h2 & R2 & (W2 & E2 & L2 & P2)).
    { apply forallb_forall. intros o' Hin. rewrite forallb_forall in Hval.
      specialize (Hval o' Hin). apply bool_decide_eq_true in Hval.
      apply bool_decide_eq_true. lia. }
    exists (b1 || b2), h2. cbn [optimize_loop]. rewrite (bind_ok _ _ _ _ _ R1), R2.
    split; [rewrite orb_assoc; reflexivity|].
    split; [exact W2|]. split; [eapply evolves_trans; eassumption|].
    cbn [length]. split; [lia|].
    destruct b1, b2; cbn [orb].
    + destruct P1 as [A1 T1], P2 as [A2 T2]. split; lia.
    + subst h2. destruct P1 as [A1 T1]. split; lia.
    + subst h1. destruct P2 as [A2 T2]. split; lia.
    + subst h1 h2. reflexivity.
Qed.

Lemma optimize_progress graph h :
  well_formed h ->
  forallb (fun o => bool_decide (o < length (operators h))) (listup_operators graph h)
  = true ->
  exists flag h',
    optimize graph h = Ok ((graph, flag), h')
    /\ body_progress (length (listup_operators graph h)) h flag h'.
Proof.
  intros Hwf Hval.
  destruct (optimize_loop_progress (listup_operators graph h) false h Hwf Hval)
    as (b & h' & Hrun & Hp).
  exists b, h'. split; [|exact Hp].
  unfold optimize. erewrite bind_ok by reflexivity.
  rewrite (bind_ok _ _ _ _ _ Hrun). reflexivity.
Qed.

End progress.

Section inversion.

Context `{Externals}.

Lemma replace_input_false_inv h o op name target h' :
  operators h !! o = Some op ->
  _replace_input o name target h = Ok (false, h') ->
  slot_has_mode h (inputs op) name target = true.
Proof.
  intros Hop Hrun.
  destruct (slot_get (inputs op) name) as [v|] eqn:Hv; cycle 1.
  { unfold _replace_input, input_of, bind, read_op in Hrun.
    rewrite Hop, Hv in Hrun. discriminate Hrun. }
  destruct (variables h !! v) as [x|] eqn:Hx; cycle 1.
  { unfold _replace_input in Hrun.
    erewrite bind_ok in Hrun by (eapply input_of_ok; eassumption).
    unfold ChannelMode.get, bind, read_var in Hrun. rewrite Hx in Hrun.
    discriminate Hrun. }
  rewrite (slot_has_mode_intro h (inputs op) name target v x Hv Hx).
  destruct (decide (mode_of x = target)) as [Hm|Hm];
    [apply bool_decide_eq_true_2; exact Hm|].
  rewrite (replace_input_true h o op name v x target Hop Hx Hv Hm) in Hrun.
  discriminate Hrun.
Qed.

Lemma replace_output_false_inv h o op name target h' :
  operators h !! o = Some op ->
  _replace_output o name target h = Ok (false, h') ->
  slot_has_mode h (outputs op) name target = true.
Proof.
  intros Hop Hrun.
  destruct (slot_get (outputs op) name) as [v|] eqn:Hv; cycle 1.
  { unfold _replace_output, output_of, bind, read_op in Hrun.
    rewrite Hop, Hv in Hrun. discriminate Hrun. }
  destruct (variables h !! v) as [x|] eqn:Hx; cycle 1.
  { unfold _replace_output in Hrun.
    erewrite bind_ok in Hrun by (eapply output_of_ok; eassumption).
    unfold ChannelMode.get, bind, read_var in Hrun. rewrite Hx in Hrun.
    discriminate Hrun. }
  rewrite (slot_has_mode_intro h (outputs op) name target v x Hv Hx).
  destruct (decide (mode_of x = target)) as [Hm|Hm];
    [apply bool_decide_eq_true_2; exact Hm|].
  rewrite (replace_output_true h o op name v x target Hop Hx Hv Hm) in Hrun.
  discriminate Hrun.
Qed.

Lemma any_of_false_inv (f : string -> M bool) (P : string -> bool) h names h' :
  (forall name, outcome h (f name h)) ->
  (forall name h1, f name h = Ok (false, h1) -> P name = true) ->
  any_of names f h = Ok (false, h') ->
  forallb P names = true.
Proof.
  intros Hout Hinv. induction names as [|name names IH]; [reflexivity|].
  cbn [any_of forallb]. intros Hrun.
  apply bind_inv in Hrun. destruct Hrun as (b1 & h1 & R1 & Hrest).
  destruct b1; [discriminate Hrest|].
  pose proof (Hout name) as O1. rewrite R1 in O1. cbn in O1. subst h1.
  rewrite (Hinv name h R1). cbn [andb]. apply IH. exact Hrest.
Qed.

Lemma two_calls_false_inv (m1 m2 : M bool) h h' :
  outcome h (m1 h) ->
  (let* b := m1 in
   let flag_changed := false || b in
   let* b := m2 in
   ret (flag_changed || b)) h = Ok (false, h') ->
  m1 h = Ok (false, h) /\ m2 h = Ok (false, h').
Proof.
  intros O1 Hrun.
  apply bind_inv in Hrun. destruct Hrun as (b1 & h1 & R1 & Hrun).
  apply bind_inv in Hrun. destruct Hrun as (b2 & h2 & R2 & Hrun).
  unfold ret in Hrun. injection Hrun as Hb <-.
  destruct b1, b2; try discriminate Hb.
  rewrite R1 in O1. cbn in O1. subst h1. auto.
Qed.

Lemma optimize_body_false_inv h o h' :
  optimize_body false o h = Ok (false, h') -> settled h o = true.
Proof.
  unfold optimize_body, settled. intros Hrun.
  apply bind_inv in Hrun. destruct Hrun as (op & h1 & R0 & Hrun).
  unfold read_op in R0. destruct (operators h !! o) as [op0|] eqn:Hop; [|discriminate R0].
  injection R0 as -> <-.
  assert (Hconv : forall tin tout,
            (let* b := _replace_input o "x0" tin in
             let flag_changed := false || b in
             let* b := _replace_output o "y" tout in
             ret (flag_changed || b)) h = Ok (false, h') ->
            slot_has_mode h (inputs op) "x0" tin && slot_has_mode h (outputs op) "y" tout
            = true).
  { intros tin tout Hc.
    apply two_calls_false_inv in Hc; [|apply replace_input_outcome].
    destruct Hc as [R1 R2].
    rewrite (replace_input_false_inv h o op "x0" tin h Hop R1).
    rewrite (replace_output_false_inv h o op "y" tout h' Hop R2). reflexivity. }
  assert (Hall : (let* b := _replace_input_all o R in
                  let flag_changed := false || b in
                  let* b := _replace_output_all o R in
                  ret (flag_changed || b)) h = Ok (false, h') ->
                 all_slots_have_mode h (inputs op) R
                 && all_slots_have_mode h (outputs op) R = true).
  { intros Hc.
    apply two_calls_false_inv in Hc; [|apply replace_input_all_outcome].
    destruct Hc as [R1 R2].
    unfold _replace_input_all in R1. unfold _replace_output_all in R2.
    rewrite (bind_ok _ _ _ _ _ (read_op_ok _ _ _ Hop)) in R1.
    rewrite (bind_ok _ _ _ _ _ (read_op_ok _ _ _ Hop)) in R2.
    unfold all_slots_have_mode. apply andb_true_iff. split.
    - apply (any_of_false_inv (fun var_name => _replace_input o var_name R)
               (fun name => slot_has_mode h (inputs op) name R) h (inputs op).*1 h);
        [intros name; apply replace_input_outcome
        |intros name h1; apply replace_input_false_inv; exact Hop
        |exact R1].
    - apply (any_of_false_inv (fun var_name => _replace_output o var_name R)
               (fun name => slot_has_mode h (outputs op) name R) h (outputs op).*1 h');
        [intros name; apply replace_output_outcome
        |intros name h1; apply replace_output_false_inv; exact Hop
        |exact R2]. }
  destruct (op_class op); first [reflexivity | apply Hconv; exact Hrun | apply Hall; exact Hrun].
Qed.

Lemma optimize_loop_false_inv ops : forall h h',
  optimize_loop false ops h = Ok (false, h') -> forallb (settled h) ops = true.
Proof.
  induction ops as [|o ops IH]; intros h h' Hrun; [reflexivity|].
  cbn [optimize_loop forallb] in *.
  apply bind_inv in Hrun. destruct Hrun as (fl1 & h1 & R1 & Hrest).
  pose proof (optimize_loop_outcome ops fl1 h1) as O2. rewrite Hrest in O2.
  destruct O2 as [[Hfl _]|[Hfl _]]; [|discriminate Hfl]. subst fl1.
  pose proof (optimize_body_outcome false o h) as O1. rewrite R1 in O1.
  destruct O1 as [[_ ->]|[Hfl _]]; [|discriminate Hfl].
  rewrite (optimize_body_false_inv h o h R1). cbn [andb]. eapply IH. exact Hrest.
Qed.

Lemma optimize_false_inv graph h g h' :
  optimize graph h = Ok ((g, false), h') ->
  forallb (settled h) (listup_operators graph h) = true.
Proof.
  unfold optimize. intros Hrun. erewrite bind_ok in Hrun by reflexivity.
  apply bind_inv in Hrun. destruct Hrun as (fl & h1 & R1 & Hrun).
  unfold ret in Hrun. injection Hrun as _ -> <-.
  eapply optimize_loop_false_inv. exact R1.
Qed.

End inversion.

Section extras.

Context `{Externals}.

(** X7: on a slot whose variable has a texture shape and is not in the
    required mode, [_replace_input] returns [True] and puts a new conversion
    operator between that variable and the operator: the conversion reads the
    variable and writes a new variable with its shape and Order, the required
    mode and, copied by [TextureShape.set], its texture shape; the slot holds
    the new variable; the slots bound to other variables, the output slots,
    the variables that were in the store and the other operators are as they
    were. *)
Theorem replace_input_splices_conversion h o op var_name v x ts target :
  operators h !! o = Some op ->
  slot_get (inputs op) var_name = Some v ->
  variables h !! v = Some x ->
  texture_shape x = Some ts ->
  mode_of x <> target ->
  exists h' op' x_new,
    _replace_input o var_name target h = Ok (true, h')
    /\ (forall u xu, variables h !! u = Some xu -> variables h' !! u = Some xu)
    /\ variables h !! length (variables h) = None
    /\ variables h' !! length (variables h) = Some x_new
    /\ shape x_new = shape x
    /\ order x_new = order x
    /\ channel_mode x_new = Some target
    /\ texture_shape x_new = Some ts
    /\ TextureShape.get (length (variables h)) h' = Ok (ts, h')
    /\ operators h' !! o = Some op'
    /\ op_class op' = op_class op
    /\ outputs op' = outputs op
    /\ slot_get (inputs op') var_name = Some (length (variables h))
    /\ (forall k u, u <> v -> slot_get (inputs op) k = Some u ->
        slot_get (inputs op') k = Some u)
    /\ operators h !! length (operators h) = None
    /\ operators h' !! length (operators h)
       = Some (conversion_op (input_conversion target) v (length (variables h)))
    /\ (forall o' op'', o' <> o -> operators h !! o' = Some op'' ->
        operators h' !! o' = Some op'').
Proof.
  intros Hop Hv Hx Hts Hm. pose proof (lookup_lt_Some _ _ _ Hop) as Holt.
  assert (Htex : texture_of x = ts) by (unfold texture_of; rewrite Hts; reflexivity).
  exists (input_spliced h o op v x target),
    (with_inputs op (rebind v (length (variables h)) (inputs op))),
    (mkVariable (shape x) (order x) (Some target)
       (Some ((texture_of x).1, (texture_of x).2))).
  split; [apply (replace_input_true h o op var_name v x target); assumption|].
  assert (Hnew : variables (input_spliced h o op v x target) !! length (variables h)
                 = Some (mkVariable (shape x) (order x) (Some target)
                           (Some ((texture_of x).1, (texture_of x).2))))
    by (unfold input_spliced; cbn [variables]; apply list_lookup_middle; reflexivity).
  split; [apply variables_kept_input_spliced|].
  split; [apply lookup_ge_None_2; lia|].
  split; [exact Hnew|].
  do 3 (split; [reflexivity|]).
  split; [cbn [texture_shape]; rewrite Htex; destruct ts; reflexivity|].
  split.
  { rewrite (TextureShape_get_ok _ _ _ Hnew). unfold texture_of at 1.
    cbn [texture_shape default]. rewrite Htex. destruct ts. reflexivity. }
  unfold input_spliced. cbn [operators].
  split.
  { rewrite lookup_app_l by (rewrite length_insert; exact Holt).
    apply list_lookup_insert_eq. exact Holt. }
  do 2 (split; [reflexivity|]).
  split.
  { cbn [with_inputs inputs]. rewrite slot_get_rebind, Hv. cbn.
    rewrite decide_True by reflexivity. reflexivity. }
  split.
  { intros k u Hne Hk. cbn [with_inputs inputs]. rewrite slot_get_rebind, Hk. cbn.
    rewrite decide_False by exact Hne. reflexivity. }
  split; [apply lookup_ge_None_2; lia|].
  split; [apply list_lookup_middle; rewrite length_insert; reflexivity|].
  intros o' op'' Hne Hop''.
  rewrite lookup_app_l by (rewrite length_insert; eapply lookup_lt_Some; exact Hop'').
  rewrite list_lookup_insert_ne by (intros ->; apply Hne; reflexivity). exact Hop''.
Qed.

(** X8: on a well-formed store whose listed operators exist, [optimize]
    raises nothing and leaves a well-formed store in which the listed
    operators still exist. *)
Theorem optimize_keeps_well_formed graph h :
  well_formed h ->
  forallb (fun o => bool_decide (o < length (operators h))) (listup_operators graph h)
  = true ->
  exists flag h',
    optimize graph h = Ok ((graph, flag), h')
    /\ well_formed h'
    /\ forallb (fun o => bool_decide (o < length (operators h')))
         (listup_operators graph h) = true.
Proof.
  intros Hwf Hval.
  destruct (optimize_progress graph h Hwf Hval) as (flag & h' & Hrun & W & E & _).
  exists flag, h'. split; [exact Hrun|]. split; [exact W|].
  pose proof (evolves_length_operators h h' E) as Hlen.
  apply forallb_forall. intros o Hin. rewrite forallb_forall in Hval.
  specialize (Hval o Hin). apply bool_decide_eq_true in Hval.
  apply bool_decide_eq_true. lia.
Qed.

(** X9: an invocation of [optimize] that reports a change leaves strictly
    fewer mismatched slots in the store than it found, and one that reports
    none leaves the store as it was. *)
Theorem optimize_change_reduces_mismatches graph h :
  well_formed h ->
  forallb (fun o => bool_decide (o < length (operators h))) (listup_operators graph h)
  = true ->
  exists flag h',
    optimize graph h = Ok ((graph, flag), h')
    /\ (flag = true -> total_mismatches h' < total_mismatches h)
    /\ (flag = false -> h' = h).
Proof.
  intros Hwf Hval.
  destruct (optimize_progress graph h Hwf Hval) as (flag & h' & Hrun & _ & _ & _ & P).
  exists flag, h'. split; [exact Hrun|].
  destruct flag; split; intros Hf; try discriminate Hf; [apply P|exact P].
Qed.

(** X10: one invocation of [optimize] adds at most two conversion operators
    for each listed operator, one before its inputs and one behind its
    outputs. *)
Theorem optimize_adds_at_most_two_per_operator graph h :
  well_formed h ->
  forallb (fun o => bool_decide (o < length (operators h))) (listup_operators graph h)
  = true ->
  exists flag h',
    optimize graph h = Ok ((graph, flag), h')
    /\ length (operators h) <= length (operators h')
    /\ length (operators h')
       <= length (operators h) + 2 * length (listup_operators graph h)
    /\ (forall o op, operators h !! o = None -> operators h' !! o = Some op ->
        is_conversion (op_class op)).
Proof.
  intros Hwf Hval.
  destruct (optimize_progress graph h Hwf Hval) as (flag & h' & Hrun & _ & E & L & _).
  exists flag, h'. split; [exact Hrun|].
  split; [apply evolves_length_operators; exact E|].
  split; [exact L|]. apply (evolves_new h h' E).
Qed.

(** X11: a successful invocation of [optimize] reports no change exactly
    when every listed operator already carries its required modes. *)
Theorem optimize_unchanged_iff_settled graph h :
  (exists h', optimize graph h = Ok ((graph, false), h'))
  <-> forallb (settled h) (listup_operators graph h) = true.
Proof.
  split.
  - intros [h' Hrun]. eapply optimize_false_inv. exact Hrun.
  - intros Hs. exists h. unfold optimize.
    erewrite bind_ok by reflexivity.
    erewrite bind_ok by (apply optimize_loop_settled; exact Hs).
    reflexivity.
Qed.

Lemma forallb_no_mismatch (P : string -> bool) names :
  forallb P names = true <-> sum_list_with (fun name => if P name then 0 else 1) names = 0.
Proof.
  induction names as [|name names IH]; [cbn; tauto|].
  cbn [forallb sum_list_with]. rewrite andb_true_iff, IH.
  destruct (P name); split; intros Hc; try lia; try tauto.
  all: try (destruct Hc as [Hc _]; discriminate Hc).
Qed.

Lemma settled_iff_no_mismatch h o op :
  operators h !! o = Some op -> (settled h o = true <-> mismatches h op = 0).
Proof.
  intros Hop. unfold settled, mismatches, side_mismatches, input_requirement,
    output_requirement, all_slots_have_mode. rewrite Hop.
  assert (Hone : forall d name t,
            sum_list_with (mismatch h d t) [name] = 0 <-> slot_has_mode h d name t = true).
  { intros d name t. cbn [sum_list_with]. unfold mismatch.
    destruct (slot_has_mode h d name t); split; intros Hc;
      try reflexivity; try lia; try discriminate Hc. }
  destruct (op_class op); cbn [fst snd].
  - cbn. tauto.
  - cbn. tauto.
  - rewrite andb_true_iff, <- !Hone. lia.
  - rewrite andb_true_iff, <- !Hone. lia.
  - rewrite andb_true_iff, !forallb_no_mismatch. unfold mismatch. lia.
  - rewrite andb_true_iff, !forallb_no_mismatch. unfold mismatch. lia.
Qed.

(** X12: the conversion operator that a splice before an input slot adds
    carries its own required modes from the start: it is never itself a
    reason for a further conversion. *)
Theorem input_conversion_is_settled h o op var_name v x target :
  operators h !! o = Some op ->
  slot_get (inputs op) var_name = Some v ->
  variables h !! v = Some x ->
  mode_of x <> target ->
  exists h' conv,
    _replace_input o var_name target h = Ok (true, h')
    /\ operators h' !! length (operators h) = Some conv
    /\ is_conversion (op_class conv)
    /\ settled h' (length (operators h)) = true.
Proof.
  intros Hop Hv Hx Hm. pose proof (lookup_lt_Some _ _ _ Hop) as Holt.
  exists (input_spliced h o op v x target),
    (conversion_op (input_conversion target) v (length (variables h))).
  split; [apply (replace_input_true h o op var_name v x target); assumption|].
  assert (Hc : operators (input_spliced h o op v x target) !! length (operators h)
               = Some (conversion_op (input_conversion target) v (length (variables h))))
    by (unfold input_spliced; cbn [operators]; apply list_lookup_middle;
        rewrite length_insert; reflexivity).
  split; [exact Hc|]. split; [apply input_conversion_is_conversion|].
  apply (settled_iff_no_mismatch _ _ _ Hc).
  apply (mismatches_input_conversion _ v (length (variables h)) x
           (mkVariable (shape x) (order x) (Some target)
              (Some ((texture_of x).1, (texture_of x).2))) target);
    [apply variables_kept_input_spliced; exact Hx|exact Hm| |reflexivity].
  unfold input_spliced. cbn [variables]. apply list_lookup_middle. reflexivity.
Qed.

(** X13: likewise the conversion operator that a splice behind an output slot
    adds carries its own required modes from the start. *)
Theorem output_conversion_is_settled h o op var_name v x target :
  no_dangling h ->
  operators h !! o = Some op ->
  slot_get (outputs op) var_name = Some v ->
  variables h !! v = Some x ->
  mode_of x <> target ->
  exists h' conv,
    _replace_output o var_name target h = Ok (true, h')
    /\ operators h' !! length (operators h) = Some conv
    /\ is_conversion (op_class conv)
    /\ settled h' (length (operators h)) = true.
Proof.
  intros Hnd Hop Hv Hx Hm. pose proof (lookup_lt_Some _ _ _ Hop) as Holt.
  exists (output_spliced h o op v x target),
    (conversion_op (output_conversion target) (length (variables h)) v).
  split; [apply (replace_output_true h o op var_name v x target); assumption|].
  assert (Hc : operators (output_spliced h o op v x target) !! length (operators h)
               = Some (conversion_op (output_conversion target) (length (variables h)) v)).
  { rewrite (output_spliced_operators h o op v x target Hnd Hop).
    apply list_lookup_middle. rewrite length_insert. reflexivity. }
  split; [exact Hc|]. split; [apply output_conversion_is_conversion|].
  apply (settled_iff_no_mismatch _ _ _ Hc).
  apply (mismatches_output_conversion _ v (length (variables h)) x
           (mkVariable (shape x) (order x) (Some target) None) target);
    [apply variables_kept_output_spliced; exact Hx|exact Hm| |reflexivity].
  unfold output_spliced. cbn [variables]. apply list_lookup_middle. reflexivity.
Qed.

Lemma optimize_repeatedly_enough_fuel graph :
  (forall h1, forallb (fun o => bool_decide (o < length (operators h1)))
                (listup_operators graph h1) = true) ->
  forall fuel h,
    total_mismatches h < fuel -> well_formed h ->
    exists h',
      optimize_repeatedly fuel graph h = Ok (true, h')
      /\ well_formed h'
      /\ evolves h h'
      /\ forallb (settled h') (listup_operators graph h') = true.
Proof.
  intros Hval. induction fuel as [|fuel IH]; intros h Hlt Hwf; [lia|].
  destruct (optimize_progress graph h Hwf (Hval h)) as (flag & h1 & Hrun & W & E & _ & P).
  cbn [optimize_repeatedly]. rewrite (bind_ok _ _ _ _ _ Hrun). cbn [snd].
  destruct flag.
  - destruct P as [_ Ht]. destruct (IH h1) as (h' & Hrest & W' & E' & S'); [lia|exact W|].
    exists h'. split; [exact Hrest|]. split; [exact W'|].
    split; [eapply evolves_trans; eassumption|exact S'].
  - subst h1. exists h. split; [reflexivity|]. split; [exact Hwf|].
    split; [apply evolves_refl|]. eapply optimize_false_inv. exact Hrun.
Qed.

(** X14: [optimize] invoked again for as long as it reports a change comes to
    an invocation that reports none after at most as many invocations as
    there are mismatched slots at the start, plus the last one; the store is
    then well-formed and every listed operator carries its required modes. *)
Theorem optimize_repeatedly_reaches_fixed_point graph h :
  (forall h1, forallb (fun o => bool_decide (o < length (operators h1)))
                (listup_operators graph h1) = true) ->
  well_formed h ->
  exists h',
    optimize_repeatedly (S (total_mismatches h)) graph h = Ok (true, h')
    /\ well_formed h'
    /\ evolves h h'
    /\ forallb (settled h') (listup_operators graph h') = true.
Proof.
  intros Hval Hwf. apply optimize_repeatedly_enough_fuel; [exact Hval|lia|exact Hwf].
Qed.

End extras.

(** *** The further properties on concrete graphs *)

Lemma arena_listing_valid graph h1 :
  forallb (fun o => bool_decide (o < length (operators h1)))
    (listup_operators (Externals := example_externals) graph h1) = true.
Proof.
  cbn [listup_operators example_externals]. apply forallb_forall.
  intros o Hin. apply in_seq in Hin. apply bool_decide_eq_true. lia.
Qed.

Lemma replace_input_splices_conversion_witness :
  exists h' op' x_new,
    _replace_input (H := example_externals) 0 "x0" R heap_two_rgba_inputs = Ok (true, h')
    /\ (forall u xu, variables heap_two_rgba_inputs !! u = Some xu ->
        variables h' !! u = Some xu)
    /\ variables heap_two_rgba_inputs !! 3 = None
    /\ variables h' !! 3 = Some x_new
    /\ shape x_new = [2; 3]%Z
    /\ order x_new = [Axis.N; Axis.C]
    /\ channel_mode x_new = Some R
    /\ texture_shape x_new = Some (4, 8)%Z
    /\ TextureShape.get (H := example_externals) 3 h' = Ok ((4, 8)%Z, h')
    /\ operators h' !! 0 = Some op'
    /\ op_class op' = OtherOperator "ElementwiseAdd"
    /\ outputs op' = [("y", 2)]
    /\ slot_get (inputs op') "x0" = Some 3
    /\ (forall k u, u <> 0 -> slot_get [("x0", 0); ("x1", 1)] k = Some u ->
        slot_get (inputs op') k = Some u)
    /\ operators heap_two_rgba_inputs !! 1 = None
    /\ operators h' !! 1 = Some (conversion_op ConvertRGBAtoR 0 3)
    /\ (forall o' op'', o' <> 0 -> operators heap_two_rgba_inputs !! o' = Some op'' ->
        operators h' !! o' = Some op'').
Proof.
  apply (replace_input_splices_conversion (H := example_externals)
           heap_two_rgba_inputs 0
           (mkOperator (OtherOperator "ElementwiseAdd") None ∅
              [("x0", 0); ("x1", 1)] [("y", 2)] [])
           "x0" 0 (mkVariable [2; 3]%Z [Axis.N; Axis.C] (Some RGBA) (Some (4, 8)%Z))
           (4, 8)%Z R);
    solve [reflexivity | discriminate].
Defined.

Lemma optimize_keeps_well_formed_witness :
  exists flag h',
    optimize (H := example_externals) graph_chain heap_chain = Ok ((graph_chain, flag), h')
    /\ well_formed h'
    /\ forallb (fun o => bool_decide (o < length (operators h')))
         (listup_operators (Externals := example_externals) graph_chain heap_chain)
       = true.
Proof.
  apply (optimize_keeps_well_formed (H := example_externals) graph_chain heap_chain).
  - apply well_formedb_sound. reflexivity.
  - reflexivity.
Defined.

Lemma optimize_change_reduces_mismatches_witness :
  exists flag h',
    optimize (H := example_externals) graph_chain heap_chain = Ok ((graph_chain, flag), h')
    /\ (flag = true ->
        total_mismatches (H := example_externals) h'
        < total_mismatches (H := example_externals) heap_chain)
    /\ (flag = false -> h' = heap_chain).
Proof.
  apply (optimize_change_reduces_mismatches (H := example_externals)
           graph_chain heap_chain).
  - apply well_formedb_sound. reflexivity.
  - reflexivity.
Defined.

Lemma optimize_adds_at_most_two_per_operator_witness :
  exists flag h',
    optimize (H := example_externals) graph_chain heap_chain = Ok ((graph_chain, flag), h')
    /\ length (operators heap_chain) <= length (operators h')
    /\ length (operators h') <= length (operators heap_chain) + 2 * 3
    /\ (forall o op, operators heap_chain !! o = None -> operators h' !! o = Some op ->
        is_conversion (op_class op)).
Proof.
  apply (optimize_adds_at_most_two_per_operator (H := example_externals)
           graph_chain heap_chain).
  - apply well_formedb_sound. reflexivity.
  - reflexivity.
Defined.

Lemma optimize_unchanged_iff_settled_witness :
  exists h',
    optimize (H := example_externals) graph_rgba_producer heap_rgba_producer_converted
    = Ok ((graph_rgba_producer, false), h').
Proof.
  apply (proj2 (optimize_unchanged_iff_settled (H := example_externals)
                  graph_rgba_producer heap_rgba_producer_converted)).
  reflexivity.
Defined.

Lemma input_conversion_is_settled_witness :
  exists h' conv,
    _replace_input (H := example_externals) 0 "x0" R heap_two_rgba_inputs = Ok (true, h')
    /\ operators h' !! 1 = Some conv
    /\ is_conversion (op_class conv)
    /\ settled (H := example_externals) h' 1 = true.
Proof.
  apply (input_conversion_is_settled (H := example_externals) heap_two_rgba_inputs 0
           (mkOperator (OtherOperator "ElementwiseAdd") None ∅
              [("x0", 0); ("x1", 1)] [("y", 2)] [])
           "x0" 0 (mkVariable [2; 3]%Z [Axis.N; Axis.C] (Some RGBA) (Some (4, 8)%Z)) R);
    solve [reflexivity | discriminate].
Defined.

Lemma output_conversion_is_settled_witness :
  exists h' conv,
    _replace_output (H := example_externals) 0 "y" R heap_rgba_output = Ok (true, h')
    /\ operators h' !! 2 = Some conv
    /\ is_conversion (op_class conv)
    /\ settled (H := example_externals) h' 2 = true.
Proof.
  apply (output_conversion_is_settled (H := example_externals) heap_rgba_output 0
           (mkOperator (OtherOperator "Relu") None ∅ [("x0", 0)] [("y", 1)] [])
           "y" 1 (mkVariable [2; 3]%Z [Axis.N; Axis.C] (Some RGBA) (Some (4, 8)%Z)) R).
  - apply no_dangling_intro. reflexivity.
  - reflexivity.
  - reflexivity.
  - reflexivity.
  - discriminate.
Defined.

Lemma optimize_repeatedly_reaches_fixed_point_witness :
  exists h',
    optimize_repeatedly (H := example_externals) 3 graph_chain heap_chain = Ok (true, h')
    /\ well_formed h'
    /\ evolves heap_chain h'
    /\ forallb (settled (H := example_externals) h')
         (listup_operators (Externals := example_externals) graph_chain h') = true.
Proof.
  apply (optimize_repeatedly_reaches_fixed_point (H := example_externals)
           graph_chain heap_chain).
  - apply arena_listing_valid.
  - apply well_formedb_sound. reflexivity.
Defined.

End ChannelModeExtra.

(** ** The loop body of the channel-mode pass, class by class *)

Module ChannelModeDispatch.
Import InsertChannelModeConversion ChannelModeSpec ChannelModeExtra.

Section dispatch.

Context `{Externals}.















End dispatch.


End ChannelModeDispatch.
